(** * Mesh-generation drivers of the brainglobe atlas scripts

    A shallow embedding of the two atlas packaging scripts
    [allen_bbp_ccfv3a_entire_mouse_brain.py] and [demba_dev_mouse.py]:
    the colour conversion [hex_to_rgb], the ontology flattening
    [flatten_structure_tree], the presence filter
    [filter_structures_not_present_in_annotation] and the mesh driver
    [retrieve_or_construct_meshes], followed by the properties proved
    about them. *)

From Stdlib Require Import ZArith QArith Ascii String List Lia.
From Stdlib.Strings Require Import Byte.
From stdpp Require Import base tactics option list strings pretty sorting gmap.

Set Warnings "-register-all".

Local Open Scope Z_scope.

(** ** Exceptions

    Python code either returns a value or raises.  Only the kind of the
    exception matters here. *)

Inductive exn : Type :=
  | ValueError
  | FileExistsError
  | OtherError (msg : string).

Inductive result (A : Type) : Type :=
  | Ok (a : A)
  | Raise (e : exn).

Arguments Ok {A} a.
Arguments Raise {A} e.

#[global] Instance result_ret : MRet result := λ A a, Ok a.

#[global] Instance result_bind : MBind result := λ A B k c,
  match c with
  | Ok a => k a
  | Raise e => Raise e
  end.

Definition returns {A : Type} (c : result A) : bool :=
  match c with Ok _ => true | Raise _ => false end.

(** A list comprehension whose element expression may raise: elements are
    evaluated left to right and the first exception aborts the rest. *)
Fixpoint comprehension {A B : Type} (f : A → result B) (l : list A)
  : result (list B) :=
  match l with
  | [] => Ok []
  | a :: l' => b ← f a; bs ← comprehension f l'; Ok (b :: bs)
  end.

(** ** Strings

    Python strings are modelled by byte strings, so the embedding covers
    ASCII input. *)

Module Py.

(** [s.lstrip(c)] for a one-character set [c]. *)
Fixpoint lstrip (c : ascii) (s : string) : string :=
  match s with
  | String a s' => if Ascii.eqb a c then lstrip c s' else s
  | EmptyString => s
  end.

(** [s[i : i + n]]: slices never raise, they are cut at the end of [s]. *)
Definition slice (i n : nat) (s : string) : string := substring i n s.

(** ASCII white space as the integer parser sees it. *)
Definition is_space (c : ascii) : bool :=
  let n := nat_of_ascii c in
  (((9 <=? n) && (n <=? 13)) || (n =? 32))%nat.

(** Value of a character as a digit in base 16. *)
Definition digit_value (c : ascii) : option Z :=
  let n := Z.of_nat (nat_of_ascii c) in
  if (48 <=? n) && (n <=? 57) then Some (n - 48)
  else if (97 <=? n) && (n <=? 102) then Some (n - 87)
  else if (65 <=? n) && (n <=? 70) then Some (n - 55)
  else None.

Fixpoint skip_space (s : string) : string :=
  match s with
  | String a s' => if is_space a then skip_space s' else s
  | EmptyString => s
  end.

(** Digits, with single underscores allowed between them.  Returns the
    accumulated value, the number of digits read and the unread rest;
    [None] on a doubled or trailing underscore. *)
Fixpoint scan_digits (s : string) (prev_underscore : bool)
    (ndigits : nat) (acc : Z) : option (Z * nat * string) :=
  match s with
  | EmptyString =>
      if prev_underscore then None else Some (acc, ndigits, s)
  | String c s' =>
      if Ascii.eqb c "_" then
        if prev_underscore then None
        else scan_digits s' true ndigits acc
      else
        match digit_value c with
        | Some d => scan_digits s' false (S ndigits) (16 * acc + d)
        | None =>
            if prev_underscore then None else Some (acc, ndigits, s)
        end
  end.

Definition skip_sign (s : string) : Z * string :=
  match s with
  | String "+" s' => (1, s')
  | String "-" s' => (-1, s')
  | _ => (1, s)
  end.

Definition skip_prefix (s : string) : string :=
  match s with
  | String "0" (String x s') =>
      if Ascii.eqb x "x" || Ascii.eqb x "X" then
        match s' with
        | String "_" s'' => s''
        | _ => s'
        end
      else s
  | _ => s
  end.

(** [int(s, 16)]: optional white space, sign and [0x] prefix, then
    digits; anything else raises [ValueError]. *)
Definition int16 (s : string) : result Z :=
  let '(sign, s1) := skip_sign (skip_space s) in
  let s2 := skip_prefix s1 in
  match s2 with
  | String "_" _ => Raise ValueError
  | _ =>
      match scan_digits s2 false 0 0 with
      | Some (v, S _, rest) =>
          match skip_space rest with
          | EmptyString => Ok (sign * v)
          | _ => Raise ValueError
          end
      | _ => Raise ValueError
      end
  end.

(** [f"{z}"] for an integer [z]. *)
Definition str_of_int (z : Z) : string := pretty z.

End Py.

(** ** Colour conversion *)

Definition hex_to_rgb (hex_string : string) : result (list Z) :=
  let hex_string := Py.lstrip "#" hex_string in
  comprehension (λ i, Py.int16 (Py.slice i 2 hex_string)) [0; 2; 4]%nat.

(** ** The hierarchy file and its flattening *)

(** A node of the JSON hierarchy.  The keys [id], [name], [acronym] and
    [color_hex_triplet] are read unconditionally; [children] is optional. *)
Inductive node : Type :=
  Node {
    node_id : Z;
    node_name : string;
    node_acronym : string;
    color_hex_triplet : string;
    node_children : option (list node)
  }.

(** A record of the flattened structure list. *)
Record structure : Type :=
  Structure {
    id : Z;
    name : string;
    acronym : string;
    structure_id_path : list Z;
    rgb_triplet : list Z
  }.

Fixpoint flatten_structure_tree (n : node) (structure_id_path : option (list Z))
  : result (list structure) :=
  let structure_id_path := default [] structure_id_path in
  let current_path := structure_id_path ++ [node_id n] in
  rgb ← hex_to_rgb (color_hex_triplet n);
  let entry := Structure (node_id n) (node_name n) (node_acronym n)
                         current_path rgb in
  let entries := [entry] in
  match node_children n with
  | Some children =>
      (fix extend (entries : list structure) (children : list node)
         : result (list structure) :=
         match children with
         | [] => Ok entries
         | child :: children' =>
             es ← flatten_structure_tree child (Some current_path);
             extend (entries ++ es) children'
         end) entries children
  | None => Ok entries
  end.

(** ** Annotation volumes and numpy arrays *)

(** A dense three-dimensional array of integer labels. *)
Definition volume : Type := list (list (list Z)).

Definition ravel (v : volume) : list Z := concat (concat v).

Module Np.

(** [np.unique(v)]: the distinct values of the flattened array, in
    increasing order. *)
Definition unique (v : volume) : list Z :=
  merge_sort Z.le (remove_dups (ravel v)).

(** The cast of one integer to [np.int32]: values outside the 32-bit
    range wrap around. *)
Definition int32 (z : Z) : Z := (z + 2 ^ 31) mod 2 ^ 32 - 2 ^ 31.

(** [a.astype(np.int32)] *)
Definition astype_int32 (a : list Z) : list Z := int32 <$> a.

(** [key in a] for a one-dimensional array [a]: some element equals
    [key]. *)
Definition contains (key : Z) (a : list Z) : bool :=
  existsb (Z.eqb key) a.

End Np.

(** ** The presence filter *)

Definition filter_structures_not_present_in_annotation
    (structures : list structure) (annotation : volume) : list structure :=
  let present_ids : gset Z := list_to_set (Np.unique annotation) in
  let filtered := filter (λ s, id s ∈ present_ids) structures in
  filtered.

(** ** The region tree handed to the mesher *)

(** Modelled from the spec: the class [Region] of [mesh_utils] is not among
    the sources.  The scripts build it from one boolean, the spec's
    [is_label]: does this exact id occur in the volume. *)
Record Region : Type := { is_label : bool }.

(** Modelled from the spec: the tree class returned by
    [get_structures_tree] is not among the sources.  A node has an
    identifier, the region id, a tag and a [data] attribute, unset until
    the driver writes it. *)
Record TreeNode : Type :=
  { identifier : Z;
    tag : string;
    data : option Region }.

(** Modelled from the spec: of the tree the driver reads only [tree.nodes],
    a dictionary from node identifier to node, kept here as the list of
    its items in insertion order. *)
Record Tree : Type := { nodes : list (Z * TreeNode) }.

(** [node.data = r] *)
Definition set_data (n : TreeNode) (r : Region) : TreeNode :=
  {| identifier := identifier n; tag := tag n; data := Some r |}.

(** ** Files

    The mesh directory is seen through the regular files it holds: a map
    from path to contents. *)

Abbreviation filesystem := (gmap string (list byte)).

Module Path.

(** [dir / name] *)
Definition join (dir name : string) : string := dir +:+ "/" +:+ name.

(** [p.exists()] *)
Definition exists_ (fs : filesystem) (p : string) : bool :=
  bool_decide (is_Some (fs !! p)).

(** [p.stat().st_size] of an existing file. *)
Definition st_size (f : list byte) : Z := Z.of_nat (length f).

(** [p.mkdir(exist_ok=True)]: raises when a regular file is in the way,
    and otherwise leaves every regular file as it is. *)
Definition mkdir_exist_ok (p : string) (fs : filesystem)
  : result filesystem :=
  if exists_ fs p then Raise FileExistsError else Ok fs.

End Path.

(** The file name of the mesh of region [i]: [f'{i}.obj']. *)
Definition obj_name (i : Z) : string := Py.str_of_int i +:+ ".obj".

(** ** The mesh driver *)

(** The tuple passed to [create_region_mesh]. *)
Record mesh_args : Type :=
  { meshes_dir_path : string;
    arg_node : TreeNode;
    arg_tree : Tree;
    arg_labels : list Z;
    arg_annotated_volume : volume;
    arg_root_id : Z;
    closing_n_iters : Z;
    decimate_fraction : Q;
    smooth : bool }.

(** What differs between the two scripts. *)
Record script : Type :=
  { ROOT_ID : Z;
    DECIMATE_FRACTION : Q }.

Definition allen_bbp_ccfv3a_entire_mouse_brain : script :=
  {| ROOT_ID := 997; DECIMATE_FRACTION := 0 |}.

Definition demba_dev_mouse : script :=
  {| ROOT_ID := 997; DECIMATE_FRACTION := 2 # 10 |}.

(** The label array: [np.unique(annotated_volume).astype(np.int32)]. *)
Definition label_array (annotated_volume : volume) : list Z :=
  Np.astype_int32 (Np.unique annotated_volume).

(** The tagging loop: every node of the tree gets a fresh [Region] whose
    flag tells whether the node's key is in the label array. *)
Definition tag_nodes (labels : list Z) (tree : Tree) : Tree :=
  {| nodes :=
       (λ '(key, node),
          let is_label := if Np.contains key labels then true else false in
          (key, set_data node {| is_label := is_label |})) <$> nodes tree |}.

(** The dictionary loop over the structure list, reading the files left
    in the mesh directory. *)
Definition keep_mesh (dir : string) (fs : filesystem)
    (acc : list structure * gmap Z string) (s : structure)
  : list structure * gmap Z string :=
  let '(structures_with_mesh, meshes_dict) := acc in
  let mesh_path := Path.join dir (obj_name (id s)) in
  match fs !! mesh_path with
  | None => acc
  | Some f =>
      if Path.st_size f <? 512 then acc
      else (structures_with_mesh ++ [s], <[id s := mesh_path]> meshes_dict)
  end.

Section Driver.

(** The two helpers of the package that the scripts import. *)
Variable get_structures_tree : list structure → result Tree.
Variable create_region_mesh : mesh_args → filesystem → result filesystem.

Variable this : script.

(** The argument tuple of one call. *)
Definition region_mesh_args (dir : string) (tree : Tree) (labels : list Z)
    (annotated_volume : volume) (node : TreeNode) : mesh_args :=
  {| meshes_dir_path := dir;
     arg_node := node;
     arg_tree := tree;
     arg_labels := labels;
     arg_annotated_volume := annotated_volume;
     arg_root_id := ROOT_ID this;
     closing_n_iters := 2;
     decimate_fraction := DECIMATE_FRACTION this;
     smooth := false |}.

(** The mesh loop: one call per node, in the order of [tree.nodes]. *)
Fixpoint create_meshes (dir : string) (tree : Tree) (labels : list Z)
    (annotated_volume : volume) (todo : list TreeNode) (fs : filesystem)
  : result filesystem :=
  match todo with
  | [] => Ok fs
  | node :: todo' =>
      fs' ← create_region_mesh
              (region_mesh_args dir tree labels annotated_volume node) fs;
      create_meshes dir tree labels annotated_volume todo' fs'
  end.

(** Returns the dictionary together with the tagged tree and the files
    the run leaves behind. *)
Definition retrieve_or_construct_meshes (download_path : string)
    (annotated_volume : volume) (structures : list structure)
    (fs : filesystem)
  : result (filesystem * Tree * gmap Z string) :=
  let meshes_dir_path := Path.join download_path "meshes" in
  fs ← Path.mkdir_exist_ok meshes_dir_path fs;
  tree ← get_structures_tree structures;
  let labels := label_array annotated_volume in
  let tree := tag_nodes labels tree in
  fs ← create_meshes meshes_dir_path tree labels annotated_volume
         (snd <$> nodes tree) fs;
  let '(structures_with_mesh, meshes_dict) :=
    foldl (keep_mesh meshes_dir_path fs) ([], ∅) structures in
  Ok (fs, tree, meshes_dict).

End Driver.

(** What the stages before the write (spec 4.3 to 4.5) hand over for one
    node: no voxel at all, a failure, or the serialized mesh. *)
Inductive stage_outcome : Type :=
  | EmptyRegion
  | StageFailure
  | Serialized (mesh : list byte).

(** Modelled from the spec: [create_region_mesh] of [mesh_utils], which the
    scripts import, is not among the sources.  The spec's writer (4.6)
    skips a node whose file already exists, writes nothing for an empty
    region, and otherwise stores the serialized mesh in a file named by
    the node's id; a failure at any stage is reported and the node left
    without a file.  The stages before the write are the parameter
    [compute]. *)
Definition create_region_mesh_spec (compute : mesh_args → stage_outcome)
    (args : mesh_args) (fs : filesystem) : result filesystem :=
  let savepath :=
    Path.join (meshes_dir_path args) (obj_name (identifier (arg_node args))) in
  if Path.exists_ fs savepath then Ok fs
  else
    match compute args with
    | EmptyRegion => Ok fs
    | StageFailure => Ok fs
    | Serialized mesh => Ok (<[savepath := mesh]> fs)
    end.

(** ** Reading the hierarchy by position

    A position is the list of child indices leading from the root to a
    node; positions tell apart nodes that carry equal fields. *)

Definition kids (n : node) : list node := default [] (node_children n).

Fixpoint tree_size (n : node) : nat :=
  match node_children n with
  | Some children => S (sum_list (map tree_size children))
  | None => 1%nat
  end.

Fixpoint subtree (n : node) (pos : list nat) : option node :=
  match pos with
  | [] => Some n
  | i :: pos' =>
      match kids n !! i with
      | Some c => subtree c pos'
      | None => None
      end
  end.

(** The number of nodes that a pre-order walk from [n] visits before it
    reaches the node at [pos]. *)
Fixpoint preorder_index (n : node) (pos : list nat) : nat :=
  match pos with
  | [] => 0
  | i :: pos' =>
      match kids n !! i with
      | Some c =>
          S (sum_list (tree_size <$> take i (kids n)) + preorder_index c pos')
      | None => 0
      end
  end%nat.

(** A boolean test on every node of a tree. *)
Fixpoint tree_forallb (P : node → bool) (n : node) : bool :=
  match node_children n with
  | Some children => P n && forallb (tree_forallb P) children
  | None => P n
  end.

(** The colours a hierarchy is expected to carry: six hexadecimal digits
    after any number of [#]. *)
Definition is_hex_digit (c : ascii) : bool :=
  match Py.digit_value c with Some _ => true | None => false end.

Definition six_hex_digits (s : string) : bool :=
  match s with
  | String d1 (String d2 (String d3 (String d4 (String d5 (String d6 EmptyString))))) =>
      forallb is_hex_digit [d1; d2; d3; d4; d5; d6]
  | _ => false
  end.

Fixpoint hex_colour (s : string) : bool :=
  match s with
  | String a s' => if Ascii.eqb a "#" then hex_colour s' else six_hex_digits s
  | EmptyString => false
  end.

Fixpoint hashes (k : nat) : string :=
  match k with
  | O => EmptyString
  | S k' => String "#" (hashes k')
  end.

Definition is_byte (z : Z) : Prop := 0 ≤ z ≤ 255.

(** The record that [flatten_structure_tree] creates for a node. *)
Definition entry_of (n : node) (path : list Z) (rgb : list Z) : structure :=
  Structure (node_id n) (node_name n) (node_acronym n) path rgb.

(** The loop over the children, started from an empty list. *)
Fixpoint flatten_forest (path : list Z) (children : list node)
  : result (list structure) :=
  match children with
  | [] => Ok []
  | child :: children' =>
      es ← flatten_structure_tree child (Some path);
      rest ← flatten_forest path children';
      Ok (es ++ rest)
  end.

(** The ids met on the way from [n] down to the node at [pos], both ends
    included. *)
Fixpoint path_ids (n : node) (pos : list nat) : list Z :=
  node_id n ::
  match pos with
  | [] => []
  | i :: pos' =>
      match kids n !! i with
      | Some c => path_ids c pos'
      | None => []
      end
  end.

Definition sizes (cs : list node) : nat := sum_list (tree_size <$> cs).

(** [records_at n path offset es]: from index [offset] on, the list [es]
    holds, for every node of [n], that node's record at the node's
    pre-order index, with the ids from [n] down to the node appended to
    [path]. *)
Definition records_at (n : node) (path : list Z) (offset : nat)
    (es : list structure) : Prop :=
  ∀ pos m, subtree n pos = Some m →
    ∃ rgb, hex_to_rgb (color_hex_triplet m) = Ok rgb ∧
           es !! (offset + preorder_index n pos)%nat
           = Some (entry_of m (path ++ path_ids n pos) rgb).

(** The colour of every node converts without an exception. *)
Definition colours_convert (n : node) : bool :=
  tree_forallb (λ m, returns (hex_to_rgb (color_hex_triplet m))) n.

(** A small hierarchy used to run the definitions. *)
Definition example_tree : node :=
  Node 997 "root" "root" "FFFFFF"
    (Some [ Node 8 "Basic cell groups and regions" "grey" "#BFDAE3"
              (Some [ Node 567 "Cerebrum" "CH" "B0F0FF" None ]);
            Node 73 "ventricular systems" "VS" "AAAAAA" (Some []) ]).

Definition example_structures : list structure :=
  [ Structure 997 "root" "root" [997] [255; 255; 255];
    Structure 8 "Basic cell groups and regions" "grey" [997; 8] [191; 218; 227];
    Structure 567 "Cerebrum" "CH" [997; 8; 567] [176; 240; 255];
    Structure 73 "ventricular systems" "VS" [997; 73] [170; 170; 170] ].

(** The values a signed 32-bit integer can hold. *)
Definition fits_int32 (z : Z) : Prop := - 2 ^ 31 ≤ z < 2 ^ 31.

Definition example_volume : volume :=
  [ [ [0; 997]; [8; 8] ]; [ [567; 0]; [997; 997] ] ].

(** A volume and a tree with a region id above the signed 32-bit range,
    as unsigned 32-bit annotations can hold. *)
Definition wide_volume : volume := [ [ [3000000000] ] ].

Definition wide_tree : Tree :=
  {| nodes := [ (3000000000,
                 {| identifier := 3000000000; tag := "wide"; data := None |}) ] |}.

Definition example_nodes : Tree :=
  {| nodes := [ (997, {| identifier := 997; tag := "root"; data := None |});
                (8, {| identifier := 8; tag := "grey"; data := None |});
                (73, {| identifier := 73; tag := "VS"; data := None |}) ] |}.

(** The path of the mesh file of region [i] below [download_path]. *)
Definition mesh_path_of (download_path : string) (i : Z) : string :=
  Path.join (Path.join download_path "meshes") (obj_name i).

(** Stand-ins for the imported helpers, used to run the driver: a tree with
    one node per structure, and a mesher that follows
    [create_region_mesh_spec] with fixed mesh sizes. *)
Definition example_get_structures_tree (structures : list structure)
  : result Tree :=
  Ok {| nodes :=
          (λ s, (id s, {| identifier := id s; tag := name s; data := None |}))
            <$> structures |}.

Definition example_compute (args : mesh_args) : stage_outcome :=
  let i := identifier (arg_node args) in
  if i =? 73 then EmptyRegion
  else if i =? 567 then Serialized (replicate 40 x00)
  else Serialized (replicate 600 x00).

(** A mesher that raises at region 8. *)
Definition failing_create_region_mesh (args : mesh_args) (fs : filesystem)
  : result filesystem :=
  if identifier (arg_node args) =? 8
  then Raise (OtherError "mesh extraction failed")
  else create_region_mesh_spec example_compute args fs.

(** The test of the dictionary loop on the file of region [k]. *)
Definition usable_mesh (dir : string) (fs : filesystem) (k : Z) : bool :=
  match fs !! Path.join dir (obj_name k) with
  | Some f => negb (Path.st_size f <? 512)
  | None => false
  end.

(** A mesh directory that already holds a file for the root region. *)
Definition example_files : filesystem :=
  {[ mesh_path_of "atlas" 997 := [x76; x20; x30] ]}.

(** ** Further notions used by the properties *)

(** All 256 characters. *)
Definition all_ascii : list ascii := ascii_of_nat <$> seq 0 256.

(** What [int(s, 16)] can give on a slice: a value from -15 to 255, or a
    [ValueError]. *)
Definition component_in_range (s : string) : bool :=
  match Py.int16 s with
  | Ok v => (-15 <=? v) && (v <=? 255)
  | Raise ValueError => true
  | Raise _ => false
  end.

(** A function applied to what a computation returns. *)
#[global] Instance result_fmap : FMap result := λ A B f c,
  match c with
  | Ok a => Ok (f a)
  | Raise e => Raise e
  end.

(** A record with [p] put in front of its path. *)
Definition prefix_path (p : list Z) (e : structure) : structure :=
  Structure (id e) (name e) (acronym e) (p ++ structure_id_path e)
            (rgb_triplet e).

(** The same on every record of a returned list. *)
Definition prefix_paths (p : list Z) (c : result (list structure))
  : result (list structure) :=
  (λ es : list structure, prefix_path p <$> es) <$> c.

(** The ids of the nodes strictly above the node at [pos], from [n]
    down. *)
Fixpoint ancestor_ids (n : node) (pos : list nat) : list Z :=
  match pos with
  | [] => []
  | i :: pos' =>
      node_id n ::
      match kids n !! i with
      | Some c => ancestor_ids c pos'
      | None => []
      end
  end.

(** ** Reading the volumes (allen_bbp_ccfv3a_entire_mouse_brain.py)

    An array with three axes: its shape and its items, axis 0 outermost.
    The shape is kept beside the items because an array with an empty
    axis still has a length along the other two. *)
Record ndarray (T : Type) : Type :=
  NdArray { shape : nat * nat * nat; items : list (list (list T)) }.

Arguments NdArray {T} shape items.
Arguments shape {T} _.
Arguments items {T} _.

(** The items have the lengths the shape tells. *)
Definition well_shaped {T : Type} (a : ndarray T) : bool :=
  let '(n0, n1, n2) := shape a in
  (length (items a) =? n0)%nat
  && forallb (λ plane,
                (length plane =? n1)%nat
                && forallb (λ row, (length row =? n2)%nat) plane)
             (items a).

(** The float64 nearest to an integer (ties to even); integers up to 2^53
    in magnitude are kept as they are.  Covers what a 64-bit integer
    array holds. *)
Definition float64_of_int (z : Z) : Z :=
  let a := Z.abs z in
  if a <=? 2 ^ 53 then z
  else
    let e := Z.log2 a - 52 in
    let q := a / 2 ^ e in
    let r := a mod 2 ^ e in
    let half := 2 ^ (e - 1) in
    let q' := if r <? half then q
              else if half <? r then q + 1
              else if Z.even q then q else q + 1 in
    Z.sgn z * (q' * 2 ^ e).

Module Nd.

(** [np.zeros(shape)]: a float64 array. *)
Definition zeros (sh : nat * nat * nat) : ndarray Z :=
  let '(n0, n1, n2) := sh in
  NdArray sh (replicate n0 (replicate n1 (replicate n2 0))).

(** [a[:, :, ::-1]] *)
Definition flip_last {T : Type} (a : ndarray T) : ndarray T :=
  NdArray (shape a)
    ((λ plane : list (list T), (λ row : list T, reverse row) <$> plane)
       <$> items a).

(** The cast of the items to float64 that an assignment into a float64
    array makes. *)
Definition astype_float64 (a : ndarray Z) : ndarray Z :=
  NdArray (shape a)
    ((λ plane : list (list Z),
        (λ row : list Z, float64_of_int <$> row) <$> plane) <$> items a).

(** Broadcasting along one axis: the lengths agree, or the source has
    length 1 and its item is repeated. *)
Definition broadcastable (src tgt : nat) : bool :=
  ((src =? tgt) || (src =? 1))%nat.

Definition stretch {T : Type} (src tgt : nat) (l : list T) : list T :=
  if (src =? tgt)%nat then l
  else match l with
       | x :: _ => replicate tgt x
       | [] => []
       end.

(** The items of [v] broadcast to the shape [tgt]; [ValueError] when the
    shapes do not fit. *)
Definition broadcast_to {T : Type} (tgt : nat * nat * nat) (v : ndarray T)
  : result (list (list (list T))) :=
  let '(a, b, c) := shape v in
  let '(n0, n1, n2) := tgt in
  if broadcastable a n0 && broadcastable b n1 && broadcastable c n2
  then Ok (stretch a n0
             ((λ plane : list (list T),
                 stretch b n1 ((λ row : list T, stretch c n2 row) <$> plane))
                <$> items v))
  else Raise ValueError.

(** [a[:, :, lo:] = v] for a float64 array [a]. *)
Definition set_from (lo : nat) (a v : ndarray Z) : result (ndarray Z) :=
  let '(n0, n1, n2) := shape a in
  vs ← broadcast_to (n0, n1, n2 - lo)%nat (astype_float64 v);
  Ok (NdArray (shape a)
        (zip_with (zip_with (λ row vrow, take lo row ++ vrow)) (items a) vs)).

(** [a[:, :, :hi] = v] for a float64 array [a]. *)
Definition set_upto (hi : nat) (a v : ndarray Z) : result (ndarray Z) :=
  let '(n0, n1, n2) := shape a in
  vs ← broadcast_to (n0, n1, hi `min` n2)%nat (astype_float64 v);
  Ok (NdArray (shape a)
        (zip_with (zip_with (λ row vrow, vrow ++ drop hi row)) (items a) vs)).

End Nd.

Section Retrieve.

(** The voxel type of the reference image, and [nrrd.read] on the two
    files: the array of the file, or an exception. *)
Variable T : Type.
Variable nrrd_read_reference : string → result (ndarray T).
Variable nrrd_read_annotation : string → result (ndarray Z).

Definition retrieve_reference_and_annotation (download_path : string)
    (resolution : Z) : result (ndarray T * ndarray Z) :=
  let reference_path :=
    Path.join download_path
      ("arav3a_bbp_nisslCOR_" +:+ Py.str_of_int resolution +:+ ".nrrd") in
  reference ← nrrd_read_reference reference_path;
  annotation ← nrrd_read_annotation
                 (Path.join download_path
                    ("annotv3a_bbp_" +:+ Py.str_of_int resolution +:+ ".nrrd"));
  if resolution =? 10 then
    let new_annot := Nd.zeros (shape reference) in
    new_annot ← Nd.set_from 570 new_annot annotation;
    new_annot ← Nd.set_upto 570 new_annot (Nd.flip_last annotation);
    let annotation := new_annot in
    Ok (reference, annotation)
  else Ok (reference, annotation).

End Retrieve.

(** A half volume of depth 570 and the reading of it, used to run
    [retrieve_reference_and_annotation]. *)
Definition example_half : ndarray Z :=
  NdArray (1, 2, 570)%nat
    [ [ 997 :: replicate 569 8; replicate 569 0 ++ [567] ] ].

Definition example_reference : ndarray unit :=
  NdArray (1, 2, 1140)%nat [ [ replicate 1140 (); replicate 1140 () ] ].

(** ** The scripts run as programs

    A step of a script that reads or changes the world outside it (files,
    network) and may raise: from the world before to the value and the
    world after. *)
Definition stateful (World X : Type) : Type := World → result (X * World).

#[global] Instance stateful_ret (World : Type) : MRet (stateful World) :=
  λ X x w, Ok (x, w).

#[global] Instance stateful_bind (World : Type) : MBind (stateful World) :=
  λ X Y k c w,
    match c w with
    | Ok (x, w') => k x w'
    | Raise e => Raise e
    end.

Definition raise {World X : Type} (e : exn) : stateful World X :=
  λ _, Raise e.

(** A [for] loop over a list, with the variables of the program as the
    state handed from one turn to the next. *)
Fixpoint for_each {World A S : Type} (body : A → S → stateful World S)
    (l : list A) (s : S) : stateful World S :=
  match l with
  | [] => mret s
  | a :: l' => s' ← body a s; for_each body l' s'
  end.

(** The keyword arguments of a call of [wrapup_atlas_from_data].  The
    link is one string in one script and a pair of strings in the
    other. *)
Record wrapup_args (Image Refs : Type) : Type :=
  { w_atlas_name : string;
    w_atlas_minor_version : Z;
    w_citation : string;
    w_atlas_link : string + string * string;
    w_species : string;
    w_resolution : Z * Z * Z;
    w_orientation : string;
    w_root_id : Z;
    w_reference_stack : Image;
    w_annotation_stack : volume;
    w_structures_list : list structure;
    w_meshes_dict : gmap Z string;
    w_working_dir : string;
    w_hemispheres_stack : option Image;
    w_cleanup_files : bool;
    w_compress : bool;
    w_scale_meshes : bool;
    w_additional_references : Refs }.

Arguments w_atlas_name {Image Refs} _.
Arguments w_atlas_minor_version {Image Refs} _.
Arguments w_citation {Image Refs} _.
Arguments w_atlas_link {Image Refs} _.
Arguments w_species {Image Refs} _.
Arguments w_resolution {Image Refs} _.
Arguments w_orientation {Image Refs} _.
Arguments w_root_id {Image Refs} _.
Arguments w_reference_stack {Image Refs} _.
Arguments w_annotation_stack {Image Refs} _.
Arguments w_structures_list {Image Refs} _.
Arguments w_meshes_dict {Image Refs} _.
Arguments w_working_dir {Image Refs} _.
Arguments w_hemispheres_stack {Image Refs} _.
Arguments w_cleanup_files {Image Refs} _.
Arguments w_compress {Image Refs} _.
Arguments w_scale_meshes {Image Refs} _.
Arguments w_additional_references {Image Refs} _.

(** The variables that the main block of a script carries from one turn
    of its loops to the next; a variable not yet assigned is [None].
    [calls] is the record of the calls of [wrapup_atlas_from_data] made so
    far, in order. *)
Record main_vars (Image Refs : Type) : Type :=
  { v_structures : option (list structure);
    v_meshes_dict : option (gmap Z string);
    v_additional_references : option Refs;
    calls : list (wrapup_args Image Refs) }.

Arguments v_structures {Image Refs} _.
Arguments v_meshes_dict {Image Refs} _.
Arguments v_additional_references {Image Refs} _.
Arguments calls {Image Refs} _.

(** [retrieve_hemisphere_map()] *)
Definition retrieve_hemisphere_map {Image : Type} : option Image := None.

(** *** demba_dev_mouse.py *)

Module Demba.

Definition version : Z := 0.
Definition ATLAS_NAME : string := "demba_dev_mouse".
Definition CITATION : string := "https://doi.org/10.1101/2024.06.14.598876".
Definition SPECIES : string := "Mus musculus".
Definition ATLAS_LINK : string * string :=
  ("https://data.kg.ebrains.eu/zip?container=https://data-proxy.ebrains.eu/api/v1/        buckets/d-8f1f65bb-44cb-4312-afd4-10f623f929b8?prefix=interpolated_segmentations",
   "https://data.kg.ebrains.eu/zip?container=https://data-proxy.ebrains.eu/api/v1/        buckets/d-8f1f65bb-44cb-4312-afd4-10f623f929b8?prefix=interpolated_volumes").
Definition ORIENTATION : string := "asr".
Definition ROOT_ID : Z := 997.

(** The dictionary, as the list of its items in insertion order. *)
Definition RESOLUTION_TO_MODALITIES : list (Z * list string) :=
  [ (25, ["MRI"; "LSFM"]); (10, ["ALLEN_STPT"]); (20, ["STPT"]) ].

Section Main.

Context {World Image Refs : Type}.

(** [Path.home()], and the functions of the script and of the package
    that work on files and the network. *)
Variable home : string.
Variable mkdir_exist_ok : string → stateful World unit.
Variable download_resources :
  string → string → string * string → stateful World string.
Variable retrieve_reference_and_annotation :
  string → Z → string → stateful World (Image * volume).
Variable retrieve_additional_references :
  string → Z → list string → stateful World Refs.
Variable retrieve_structure_information : stateful World (list structure).
Variable retrieve_or_construct_meshes :
  list structure → volume → string → stateful World (gmap Z string).
Variable wrapup_atlas_from_data :
  wrapup_args Image Refs → stateful World string.

(** One turn of the loop over [RESOLUTION_TO_MODALITIES.items()]. *)
Definition resolution_turn (bg_root_dir age_specific_root_dir : string)
    (age : Z) (item : Z * list string) (v : main_vars Image Refs)
  : stateful World (main_vars Image Refs) :=
  let '(resolution, modalities) := item in
  match modalities with
  | [] => raise (OtherError "IndexError")
  | modality0 :: modalities_from_1 =>
      volumes ← retrieve_reference_and_annotation bg_root_dir age modality0;
      let '(reference_volume, annotated_volume) := volumes in
      additional_references ←
        (if (1 <? length modalities)%nat
         then refs ← retrieve_additional_references bg_root_dir age
                       modalities_from_1;
              mret (Some refs)
         else mret (v_additional_references v));
      let hemispheres_stack := @retrieve_hemisphere_map Image in
      structures ← retrieve_structure_information;
      meshes_dict ←
        match v_meshes_dict v with
        | None =>
            if negb (resolution =? 25)
            then raise (OtherError "TypeError")
            else retrieve_or_construct_meshes structures annotated_volume
                   age_specific_root_dir
        | Some meshes_dict => mret meshes_dict
        end;
      let current_name :=
        ATLAS_NAME +:+ "_p" +:+ Py.str_of_int age +:+ "_" +:+ modality0 in
      match additional_references with
      | None => raise (OtherError "NameError")
      | Some refs =>
          let args :=
            {| w_atlas_name := current_name;
               w_atlas_minor_version := version;
               w_citation := CITATION;
               w_atlas_link := inr ATLAS_LINK;
               w_species := SPECIES;
               w_resolution := (resolution, resolution, resolution);
               w_orientation := ORIENTATION;
               w_root_id := ROOT_ID;
               w_reference_stack := reference_volume;
               w_annotation_stack := annotated_volume;
               w_structures_list := structures;
               w_meshes_dict := meshes_dict;
               w_working_dir := bg_root_dir;
               w_hemispheres_stack := None;
               w_cleanup_files := false;
               w_compress := true;
               w_scale_meshes := true;
               w_additional_references := refs |} in
          output_filename ← wrapup_atlas_from_data args;
          mret {| v_structures := Some structures;
                  v_meshes_dict := Some meshes_dict;
                  v_additional_references := Some refs;
                  calls := calls v ++ [args] |}
      end
  end.

(** One turn of the loop over the ages. *)
Definition age_turn (bg_root_dir : string) (age : Z)
    (v : main_vars Image Refs) : stateful World (main_vars Image Refs) :=
  let age_specific_root_dir :=
    Path.join bg_root_dir ("P" +:+ Py.str_of_int age) in
  _ ← mkdir_exist_ok age_specific_root_dir;
  v ← for_each (resolution_turn bg_root_dir age_specific_root_dir age)
        RESOLUTION_TO_MODALITIES v;
  mret {| v_structures := v_structures v;
          v_meshes_dict := None;
          v_additional_references := v_additional_references v;
          calls := calls v |}.

(** The main block; it returns the record of the calls of
    [wrapup_atlas_from_data]. *)
Definition main : stateful World (list (wrapup_args Image Refs)) :=
  let bg_root_dir :=
    Path.join (Path.join home "brainglobe_workingdir") ATLAS_NAME in
  _ ← mkdir_exist_ok bg_root_dir;
  _ ← download_resources bg_root_dir ATLAS_NAME ATLAS_LINK;
  v ← for_each (age_turn bg_root_dir) (seqZ 4 53)
        {| v_structures := None;
           v_meshes_dict := None;
           v_additional_references := None;
           calls := [] |};
  mret (calls v).

End Main.

End Demba.

(** *** allen_bbp_ccfv3a_entire_mouse_brain.py *)

Module Allen.

Record AtlasMetadata : Type :=
  { version : Z;
    name : string;
    citation : string;
    species : string;
    atlas_link : string;
    orientation : string;
    root_id : Z;
    resolution : Z }.

Definition METADATA : AtlasMetadata :=
  {| version := 0;
     name := "allen_bbp_ccfv3a_entire_mouse_brain";
     citation := "https://doi.org/10.1101/2024.11.06.622212";
     atlas_link := "https://zenodo.org/api/records/14034334/files-archive";
     species := "Mus musculus";
     orientation := "asr";
     root_id := 997;
     resolution := 25 |}.

Section Main.

Context {World Image Refs : Type}.

Variable home : string.
Variable mkdir_exist_ok : string → stateful World unit.
Variable download_resources : string → string → string → stateful World unit.
Variable retrieve_reference_and_annotation :
  string → Z → stateful World (Image * volume).
Variable retrieve_additional_references : string → Z → stateful World Refs.
Variable retrieve_structure_information :
  string → stateful World (list structure).
Variable retrieve_or_construct_meshes :
  string → volume → list structure → stateful World (gmap Z string).
Variable wrapup_atlas_from_data :
  wrapup_args Image Refs → stateful World string.

(** One turn of the loop over the resolutions; the loop variable
    [resolution] is written [res], the name being taken by the field of
    [METADATA]. *)
Definition resolution_turn (bg_root_dir : string) (res : Z)
    (v : main_vars Image Refs) : stateful World (main_vars Image Refs) :=
  volumes ← retrieve_reference_and_annotation bg_root_dir res;
  let '(reference_volume, annotated_volume) := volumes in
  additional_references ← retrieve_additional_references bg_root_dir res;
  let hemispheres_stack := @retrieve_hemisphere_map Image in
  assigned ←
    (if res =? 25
     then structures ← retrieve_structure_information bg_root_dir;
          meshes_dict ← retrieve_or_construct_meshes bg_root_dir
                          annotated_volume structures;
          let structures :=
            filter_structures_not_present_in_annotation structures
              annotated_volume in
          mret (Some structures, Some meshes_dict)
     else mret (v_structures v, v_meshes_dict v));
  match assigned with
  | (Some structures, Some meshes_dict) =>
      let args :=
        {| w_atlas_name := name METADATA;
           w_atlas_minor_version := version METADATA;
           w_citation := citation METADATA;
           w_atlas_link := inl (atlas_link METADATA);
           w_species := species METADATA;
           w_resolution :=
             (resolution METADATA, resolution METADATA, resolution METADATA);
           w_orientation := orientation METADATA;
           w_root_id := root_id METADATA;
           w_reference_stack := reference_volume;
           w_annotation_stack := annotated_volume;
           w_structures_list := structures;
           w_meshes_dict := meshes_dict;
           w_working_dir := bg_root_dir;
           w_hemispheres_stack := None;
           w_cleanup_files := false;
           w_compress := true;
           w_scale_meshes := true;
           w_additional_references := additional_references |} in
      output_filename ← wrapup_atlas_from_data args;
      mret {| v_structures := Some structures;
              v_meshes_dict := Some meshes_dict;
              v_additional_references := Some additional_references;
              calls := calls v ++ [args] |}
  | _ => raise (OtherError "NameError")
  end.

Definition main : stateful World (list (wrapup_args Image Refs)) :=
  let bg_root_dir :=
    Path.join (Path.join home "brainglobe_workingdir") (name METADATA) in
  _ ← mkdir_exist_ok bg_root_dir;
  _ ← download_resources bg_root_dir (name METADATA) (atlas_link METADATA);
  v ← for_each (resolution_turn bg_root_dir) [25; 10]
        {| v_structures := None;
           v_meshes_dict := None;
           v_additional_references := None;
           calls := [] |};
  mret (calls v).

End Main.

End Allen.

(** The calls of one age, one after the other. *)
Definition flat_calls {A : Type} (runs : list (A * A * A)) : list A :=
  concat ((λ '(c25, c10, c20), [c25; c10; c20]) <$> runs).

(** What the three calls of [wrapup_atlas_from_data] for one age are
    like, in demba_dev_mouse.py. *)
Definition demba_age_calls {World Image Refs : Type}
    (retrieve_additional_references :
       string → Z → list string → stateful World Refs)
    (retrieve_or_construct_meshes :
       list structure → volume → string → stateful World (gmap Z string))
    (bg_root_dir : string) (age : Z)
    (run : wrapup_args Image Refs * wrapup_args Image Refs
           * wrapup_args Image Refs) : Prop :=
  let '(c25, c10, c20) := run in
  w_atlas_name c25 = "demba_dev_mouse_p" +:+ Py.str_of_int age +:+ "_MRI" ∧
  w_atlas_name c10
  = "demba_dev_mouse_p" +:+ Py.str_of_int age +:+ "_ALLEN_STPT" ∧
  w_atlas_name c20 = "demba_dev_mouse_p" +:+ Py.str_of_int age +:+ "_STPT" ∧
  w_resolution c25 = (25, 25, 25) ∧
  w_resolution c10 = (10, 10, 10) ∧
  w_resolution c20 = (20, 20, 20) ∧
  (∃ wa wb,
     retrieve_or_construct_meshes (w_structures_list c25)
       (w_annotation_stack c25)
       (Path.join bg_root_dir ("P" +:+ Py.str_of_int age)) wa
     = Ok (w_meshes_dict c25, wb)) ∧
  w_meshes_dict c10 = w_meshes_dict c25 ∧
  w_meshes_dict c20 = w_meshes_dict c25 ∧
  (∃ wa wb,
     retrieve_additional_references bg_root_dir age ["LSFM"] wa
     = Ok (w_additional_references c25, wb)) ∧
  w_additional_references c10 = w_additional_references c25 ∧
  w_additional_references c20 = w_additional_references c25.

(** Stand-ins for the functions that work on files and the network, used
    to run the main blocks: the world is the number of atlases written so
    far, images are left out and the additional references are named by
    a string. *)
Definition example_step {X : Type} (x : X) : stateful nat X := λ w, Ok (x, w).

Definition example_wrapup (args : wrapup_args unit string)
  : stateful nat string :=
  λ w, Ok (w_atlas_name args +:+ ".tar.gz", S w).

Definition example_demba_main : stateful nat (list (wrapup_args unit string)) :=
  Demba.main "/home/user"
    (λ _, example_step ())
    (λ dir _ _, example_step dir)
    (λ _ _ _, example_step ((), example_volume))
    (λ _ age modalities,
       example_step (Py.str_of_int age +:+ default "" (head modalities)))
    (example_step example_structures)
    (λ structures _ dir,
       example_step (list_to_map ((λ s, (id s, dir)) <$> structures)))
    example_wrapup.

Definition example_allen_main : stateful nat (list (wrapup_args unit string)) :=
  Allen.main "/home/user"
    (λ _, example_step ())
    (λ _ _ _, example_step ())
    (λ _ _, example_step ((), example_volume))
    (λ _ res, example_step (Py.str_of_int res))
    (λ _, example_step example_structures)
    (λ dir _ structures,
       example_step (list_to_map ((λ s, (id s, dir)) <$> structures)))
    example_wrapup.

(** * Properties *)

(** ** Exceptions *)

Lemma bind_Ok {A B : Type} (c : result A) (k : A → result B) (b : B) :
  c ≫= k = Ok b ↔ ∃ a, c = Ok a ∧ k a = Ok b.
Proof.
  destruct c as [a|e]; simpl; split.
  - eauto.
  - intros (a' & [= <-] & Hk). exact Hk.
  - discriminate.
  - intros (a' & [=] & _).
Qed.

Lemma returns_Ok {A : Type} (c : result A) :
  returns c = true ↔ ∃ a, c = Ok a.
Proof.
  destruct c; simpl; split; eauto; try discriminate.
  intros [a [=]].
Qed.

(** ** Hexadecimal digits *)

Ltac each_ascii c :=
  destruct c as [[] [] [] [] [] [] [] []].

Lemma digit_value_range (c : ascii) (v : Z) :
  Py.digit_value c = Some v → 0 ≤ v ≤ 15.
Proof.
  unfold Py.digit_value.
  pose proof (nat_ascii_bounded c) as Hc.
  repeat case_match; intros [= <-]; lia.
Qed.

Lemma digit_not_hash (c : ascii) (v : Z) :
  Py.digit_value c = Some v → Ascii.eqb c "#" = false.
Proof. each_ascii c; vm_compute; congruence. Qed.

Lemma int16_pair (a b : ascii) (va vb : Z) :
  Py.digit_value a = Some va →
  Py.digit_value b = Some vb →
  Py.int16 (String a (String b EmptyString)) = Ok (16 * va + vb).
Proof.
  intros Ha Hb.
  each_ascii a; vm_compute in Ha; try discriminate Ha;
    injection Ha as <-;
    each_ascii b; vm_compute in Hb; try discriminate Hb;
    injection Hb as <-; reflexivity.
Qed.

Lemma lstrip_hashes (k : nat) (c : ascii) (s : string) :
  Ascii.eqb c "#" = false →
  Py.lstrip "#" (hashes k +:+ String c s) = String c s.
Proof.
  intros Hc. induction k as [|k IH]; simpl.
  - by rewrite Hc.
  - exact IH.
Qed.

(** ** Trees *)

Section Trees.

Local Open Scope nat_scope.

Lemma node_kids_ind (P : node → Prop) :
  (∀ n, Forall P (kids n) → P n) → ∀ n, P n.
Proof.
  intros step. fix IH 1. intros n. apply step.
  destruct n as [i nm ac col [cs|]]; unfold kids; simpl; [|constructor].
  induction cs as [|c cs IHcs]; constructor; [apply IH | exact IHcs].
Qed.

Lemma tree_size_kids (n : node) : tree_size n = S (sizes (kids n)).
Proof. by destruct n as [i nm ac col [cs|]]. Qed.

Lemma tree_forallb_kids (P : node → bool) (n : node) :
  tree_forallb P n = P n && forallb (tree_forallb P) (kids n).
Proof.
  destruct n as [i nm ac col [cs|]]; unfold kids; simpl; [done|].
  by rewrite andb_true_r.
Qed.

Lemma sizes_cons (c : node) (cs : list node) :
  sizes (c :: cs) = tree_size c + sizes cs.
Proof. reflexivity. Qed.

Lemma sizes_take_le (i : nat) (cs : list node) :
  sizes (take i cs) ≤ sizes cs.
Proof.
  revert i. induction cs as [|c cs IH]; intros [|i]; simpl;
    rewrite ?sizes_cons; unfold sizes in *; simpl; try lia.
  specialize (IH i). lia.
Qed.

Lemma sizes_take_lookup (i : nat) (cs : list node) (c : node) :
  cs !! i = Some c → sizes (take i cs) + tree_size c ≤ sizes cs.
Proof.
  revert i. induction cs as [|c' cs IH]; intros [|i] Hi; simplify_eq/=.
  - rewrite sizes_cons. unfold sizes. simpl. lia.
  - rewrite !sizes_cons. specialize (IH i Hi). lia.
Qed.

Lemma sizes_take_lt (i j : nat) (cs : list node) (c : node) :
  cs !! i = Some c → i < j →
  sizes (take i cs) + tree_size c ≤ sizes (take j cs).
Proof.
  intros Hi Hij.
  assert (take i cs = take i (take j cs)) as -> by (rewrite take_take; f_equal; lia).
  apply sizes_take_lookup. rewrite lookup_take_lt; [done | lia].
Qed.

Lemma tree_size_pos (n : node) : 0 < tree_size n.
Proof. rewrite tree_size_kids. lia. Qed.

(** The index of a node lies inside the walk of its tree. *)
Lemma preorder_index_lt (n : node) :
  ∀ pos m, subtree n pos = Some m → preorder_index n pos < tree_size n.
Proof.
  induction n as [n IH] using node_kids_ind.
  intros [|i pos] m Hm; simpl in *; [apply tree_size_pos|].
  destruct (kids n !! i) as [c|] eqn:Hc; [|done].
  rewrite Forall_lookup in IH. specialize (IH i c Hc pos m Hm).
  rewrite tree_size_kids. pose proof (sizes_take_lookup i _ c Hc).
  fold (sizes (take i (kids n))). lia.
Qed.

(** Two positions with the same index are the same position. *)
Lemma preorder_index_inj (n : node) :
  ∀ pos pos' m m',
    subtree n pos = Some m → subtree n pos' = Some m' →
    preorder_index n pos = preorder_index n pos' → pos = pos'.
Proof.
  induction n as [n IH] using node_kids_ind.
  rewrite Forall_lookup in IH.
  intros [|i pos] [|j pos'] m m' Hm Hm' Heq; simpl in *; [done|..].
  - destruct (kids n !! j); done.
  - destruct (kids n !! i); done.
  - destruct (kids n !! i) as [c|] eqn:Hc; [|done].
    destruct (kids n !! j) as [d|] eqn:Hd; [|done].
    fold (sizes (take i (kids n))) in Heq.
    fold (sizes (take j (kids n))) in Heq.
    pose proof (preorder_index_lt c pos m Hm).
    pose proof (preorder_index_lt d pos' m' Hm').
    destruct (Nat.lt_trichotomy i j) as [Hlt|[->|Hlt]].
    + pose proof (sizes_take_lt i j _ c Hc Hlt). lia.
    + simplify_eq. f_equal. eapply IH; eauto. lia.
    + pose proof (sizes_take_lt j i _ d Hd Hlt). lia.
Qed.

Lemma subtree_app (n : node) :
  ∀ pos q, subtree n (pos ++ q) = subtree n pos ≫= λ m, subtree m q.
Proof.
  intros pos. revert n. induction pos as [|i pos IH]; intros n q; simpl; [done|].
  destruct (kids n !! i); [apply IH | done].
Qed.

Lemma preorder_index_app (n m : node) :
  ∀ pos q, subtree n pos = Some m →
    preorder_index n (pos ++ q) = preorder_index n pos + preorder_index m q.
Proof.
  intros pos. revert n. induction pos as [|i pos IH]; intros n q Hm; simpl in *.
  - by simplify_eq.
  - destruct (kids n !! i) as [c|]; [|done].
    rewrite (IH c q Hm). lia.
Qed.

Lemma path_ids_app (n m : node) :
  ∀ pos i c, subtree n pos = Some m → kids m !! i = Some c →
    path_ids n (pos ++ [i]) = path_ids n pos ++ [node_id c].
Proof.
  intros pos. revert n. induction pos as [|j pos IH]; intros n i c Hm Hc; simpl in *.
  - simplify_eq. by rewrite Hc.
  - destruct (kids n !! j) as [d|]; [|done].
    by rewrite (IH d i c Hm Hc).
Qed.

Lemma path_ids_last (n m : node) :
  ∀ pos, subtree n pos = Some m → last (path_ids n pos) = Some (node_id m).
Proof.
  intros pos. revert n. induction pos as [|j pos IH]; intros n Hm; simpl in *.
  - by simplify_eq.
  - destruct (kids n !! j) as [d|]; [|done].
    specialize (IH d Hm). destruct pos as [|j' pos']; simpl in *;
      [by simplify_eq|].
    destruct (kids d !! j'); simpl in *; done.
Qed.

(** Every index below the size is the index of a node. *)
Lemma sizes_locate (cs : list node) :
  ∀ k, k < sizes cs →
    ∃ i c, cs !! i = Some c ∧
           sizes (take i cs) ≤ k < sizes (take i cs) + tree_size c.
Proof.
  induction cs as [|c cs IH]; intros k Hk.
  - unfold sizes in Hk. simpl in Hk. lia.
  - rewrite sizes_cons in Hk.
    destruct (decide (k < tree_size c)) as [Hlt|Hge].
    + exists 0, c. unfold sizes. simpl. split; [done | lia].
    + destruct (IH (k - tree_size c)) as (i & d & Hd & Hr); [lia|].
      exists (S i), d. simpl. rewrite sizes_cons. split; [done | lia].
Qed.

Lemma preorder_index_surj (n : node) :
  ∀ k, k < tree_size n →
    ∃ pos m, subtree n pos = Some m ∧ preorder_index n pos = k.
Proof.
  induction n as [n IH] using node_kids_ind.
  rewrite Forall_lookup in IH.
  intros [|k] Hk; [by exists [], n|].
  rewrite tree_size_kids in Hk.
  destruct (sizes_locate (kids n) k) as (i & c & Hc & Hr); [lia|].
  destruct (IH i c Hc (k - sizes (take i (kids n)))) as (pos & m & Hm & Hi);
    [lia|].
  exists (i :: pos), m. simpl. rewrite Hc. split; [done|].
  fold (sizes (take i (kids n))). lia.
Qed.

End Trees.

(** ** The flattening, node by node *)

Section Flatten.

Local Open Scope nat_scope.

Lemma flatten_unfold (n : node) (p : option (list Z)) :
  flatten_structure_tree n p =
    (rgb ← hex_to_rgb (color_hex_triplet n);
     rest ← flatten_forest (default [] p ++ [node_id n]) (kids n);
     Ok (entry_of n (default [] p ++ [node_id n]) rgb :: rest)).
Proof.
  destruct n as [i nm ac col [cs|]]; unfold kids, entry_of; simpl;
    destruct (hex_to_rgb col) as [rgb|err]; simpl; try done.
  set (path := default [] p ++ [i]).
  set (e := Structure i nm ac path rgb).
  transitivity (rest ← flatten_forest path cs; Ok ([e] ++ rest)); [|done].
  generalize [e]. intros acc. revert acc.
  induction cs as [|c cs IH]; intros acc; simpl.
  - by rewrite app_nil_r.
  - destruct (flatten_structure_tree c (Some path)) as [es|err]; simpl; [|done].
    rewrite IH. destruct (flatten_forest path cs); simpl; [|done].
    by rewrite app_assoc.
Qed.

Lemma flatten_forest_at (cs : list node) :
  Forall (λ c, ∀ p es, flatten_structure_tree c p = Ok es →
                 length es = tree_size c ∧ records_at c (default [] p) 0 es) cs →
  ∀ path es, flatten_forest path cs = Ok es →
    length es = sizes cs ∧
    ∀ i c, cs !! i = Some c → records_at c path (sizes (take i cs)) es.
Proof.
  induction 1 as [|c cs Hc _ IH]; intros path es Hes; simpl in Hes.
  - simplify_eq. split; [done|]. intros i c Hi. by destruct i.
  - apply bind_Ok in Hes as (es1 & H1 & Hes).
    apply bind_Ok in Hes as (es2 & H2 & Hes). simplify_eq.
    destruct (Hc _ _ H1) as [Hlen1 Hat1].
    destruct (IH _ _ H2) as [Hlen2 Hat2].
    split; [rewrite length_app, sizes_cons; lia|].
    intros [|i] d Hd pos m Hm; simpl in *.
    + simplify_eq. destruct (Hat1 pos m Hm) as (rgb & Hrgb & Hlook).
      exists rgb. split; [done|].
      rewrite lookup_app_l; [done|].
      pose proof (preorder_index_lt _ _ _ Hm). simpl. lia.
    + destruct (Hat2 i d Hd pos m Hm) as (rgb & Hrgb & Hlook).
      exists rgb. split; [done|].
      rewrite sizes_cons, lookup_app_r by lia.
      rewrite <- Hlook. f_equal. lia.
Qed.

(** The output holds one record per node, each at the node's pre-order
    index and with the ids of its ancestors as path. *)
Lemma flatten_at (n : node) :
  ∀ p es, flatten_structure_tree n p = Ok es →
    length es = tree_size n ∧ records_at n (default [] p) 0 es.
Proof.
  induction n as [n IH] using node_kids_ind.
  intros p es Hes. rewrite flatten_unfold in Hes.
  apply bind_Ok in Hes as (rgb & Hrgb & Hes).
  apply bind_Ok in Hes as (rest & Hrest & Hes). simplify_eq.
  destruct (flatten_forest_at _ IH _ _ Hrest) as [Hlen Hat].
  split; [simpl; rewrite tree_size_kids; lia|].
  intros [|i pos] m Hm; simpl in *.
  - simplify_eq. by exists rgb.
  - destruct (kids n !! i) as [c|] eqn:Hc; [|done].
    destruct (Hat i c Hc pos m Hm) as (rgb' & Hrgb' & Hlook).
    exists rgb'. split; [done|].
    unfold sizes in Hlook. simpl. rewrite Hlook.
    by rewrite <- app_assoc.
Qed.

Lemma flatten_forest_returns (cs : list node) :
  Forall (λ c, colours_convert c = true →
               ∀ p, ∃ es, flatten_structure_tree c p = Ok es) cs →
  forallb colours_convert cs = true →
  ∀ path, ∃ es, flatten_forest path cs = Ok es.
Proof.
  induction 1 as [|c cs Hc _ IH]; intros Hall path; simpl in *; [eauto|].
  apply andb_true_iff in Hall as [Hc' Hcs].
  destruct (Hc Hc' (Some path)) as [es1 ->].
  destruct (IH Hcs path) as [es2 ->]. simpl. eauto.
Qed.

(** With convertible colours the flattening raises nothing. *)
Lemma flatten_returns (n : node) :
  colours_convert n = true → ∀ p, ∃ es, flatten_structure_tree n p = Ok es.
Proof.
  induction n as [n IH] using node_kids_ind.
  intros Hn p. unfold colours_convert in Hn.
  rewrite tree_forallb_kids in Hn. apply andb_true_iff in Hn as [Hcol Hkids].
  apply returns_Ok in Hcol as [rgb Hrgb].
  destruct (flatten_forest_returns _ IH Hkids (default [] p ++ [node_id n]))
    as [rest Hrest].
  rewrite flatten_unfold, Hrgb. simpl. rewrite Hrest. simpl. eauto.
Qed.

End Flatten.

Example flatten_example :
  flatten_structure_tree example_tree None = Ok example_structures.
Proof. reflexivity. Qed.

(** ** Paths and order of the flattened records *)

Section FlattenClaims.

Local Open Scope nat_scope.

Lemma subtree_snoc (n m : node) (pos : list nat) (i : nat) :
  subtree n (pos ++ [i]) = Some m →
  ∃ parent, subtree n pos = Some parent ∧ kids parent !! i = Some m.
Proof.
  rewrite subtree_app. destruct (subtree n pos) as [parent|]; simpl; [|done].
  destruct (kids parent !! i) as [c|] eqn:Hc; [|done].
  intros [= <-]. eauto.
Qed.

Lemma preorder_index_descendant (n m d : node) (pos q : list nat) :
  q ≠ [] → subtree n pos = Some m → subtree n (pos ++ q) = Some d →
  preorder_index n pos < preorder_index n (pos ++ q).
Proof.
  intros Hq Hm Hd. rewrite (preorder_index_app n m pos q Hm).
  rewrite subtree_app, Hm in Hd. simpl in Hd.
  destruct q as [|i q]; [done|]. simpl in *.
  destruct (kids m !! i); [lia | done].
Qed.

Lemma tree_forallb_subtree (P : node → bool) (n : node) :
  tree_forallb P n = true →
  ∀ pos m, subtree n pos = Some m → P m = true.
Proof.
  induction n as [n IH] using node_kids_ind.
  rewrite Forall_lookup in IH.
  rewrite tree_forallb_kids. intros [Hn Hkids]%andb_true_iff [|i pos] m Hm;
    simpl in *; [by simplify_eq|].
  destruct (kids n !! i) as [c|] eqn:Hc; [|done].
  eapply IH; [exact Hc | | exact Hm].
  rewrite forallb_forall in Hkids. apply Hkids.
  apply list_elem_of_In, list_elem_of_lookup. eauto.
Qed.

(** Every record of the output is the record of some node. *)
Lemma flatten_record_of_node (root : node) (p : option (list Z))
    (es : list structure) (k : nat) (e : structure) :
  flatten_structure_tree root p = Ok es → es !! k = Some e →
  ∃ pos m rgb,
    subtree root pos = Some m ∧ preorder_index root pos = k ∧
    hex_to_rgb (color_hex_triplet m) = Ok rgb ∧
    e = entry_of m (default [] p ++ path_ids root pos) rgb.
Proof.
  intros Hes Hk. destruct (flatten_at root p es Hes) as [Hlen Hat].
  apply lookup_lt_Some in Hk as Hlt. rewrite Hlen in Hlt.
  destruct (preorder_index_surj root k Hlt) as (pos & m & Hm & Hi).
  destruct (Hat pos m Hm) as (rgb & Hrgb & Hlook). simpl in Hlook.
  rewrite Hi, Hk in Hlook. simplify_eq. eauto 10.
Qed.

(** C5: in the list flattened from a hierarchy, the first record is the
    root's and its [structure_id_path] is the root's id alone; every
    record's path ends in the record's own id; and every record but the
    first belongs to a child node, whose path is the path of the record
    of its parent node followed by the child's own id. *)
Theorem flatten_paths_extend_parent (root : node) (es : list structure) :
  flatten_structure_tree root None = Ok es →
  (∃ e0, es !! 0 = Some e0 ∧ id e0 = node_id root ∧
         structure_id_path e0 = [node_id root]) ∧
  (∀ k e, es !! k = Some e →
     last (structure_id_path e) = Some (id e) ∧
     (k = 0 ∨
      ∃ pos i parent,
        is_Some (subtree root (pos ++ [i])) ∧
        k = preorder_index root (pos ++ [i]) ∧
        es !! preorder_index root pos = Some parent ∧
        structure_id_path e = structure_id_path parent ++ [id e])).
Proof.
  intros Hes. destruct (flatten_at root None es Hes) as [Hlen Hat].
  split.
  - destruct (Hat [] root eq_refl) as (rgb & _ & Hlook).
    eexists. split; [exact Hlook | done].
  - intros k e Hk.
    destruct (flatten_record_of_node _ _ _ _ _ Hes Hk)
      as (pos & m & rgb & Hm & Hi & _ & ->). simpl.
    split; [by apply path_ids_last|].
    destruct pos as [|j pos _] using rev_ind; [by left | right].
    destruct (subtree_snoc _ _ _ _ Hm) as (pm & Hpm & Hc).
    destruct (Hat pos pm Hpm) as (prgb & _ & Hlook). simpl in Hlook.
    exists pos, j, (entry_of pm (path_ids root pos) prgb).
    split_and!; [by rewrite Hm | done | done |].
    simpl. by apply path_ids_app with pm.
Qed.

Lemma flatten_paths_extend_parent_witness :
  ∃ e0, example_structures !! 0 = Some e0 ∧ id e0 = node_id example_tree ∧
        structure_id_path e0 = [node_id example_tree].
Proof.
  exact (proj1 (flatten_paths_extend_parent example_tree example_structures
                  eq_refl)).
Defined.

(** C10: the flattening walks the hierarchy in pre-order.  For a
    hierarchy whose colours convert, it returns a list with one record
    per node: as many records as nodes, the record of the node at a
    position sitting at that position's pre-order index, every index
    taken by some node and no index by two; and the record of a node
    comes strictly before the record of each of its descendants. *)
Theorem flatten_is_preorder (root : node) :
  colours_convert root = true →
  ∃ es, flatten_structure_tree root None = Ok es ∧
    length es = tree_size root ∧
    (∀ pos m, subtree root pos = Some m →
       ∃ e, es !! preorder_index root pos = Some e ∧
            id e = node_id m ∧ name e = node_name m ∧
            acronym e = node_acronym m) ∧
    (∀ k, k < length es →
       ∃ pos m, subtree root pos = Some m ∧ preorder_index root pos = k) ∧
    (∀ pos pos' m m',
       subtree root pos = Some m → subtree root pos' = Some m' →
       preorder_index root pos = preorder_index root pos' → pos = pos') ∧
    (∀ pos q m d,
       q ≠ [] → subtree root pos = Some m →
       subtree root (pos ++ q) = Some d →
       preorder_index root pos < preorder_index root (pos ++ q)).
Proof.
  intros Hcol. destruct (flatten_returns root Hcol None) as [es Hes].
  destruct (flatten_at root None es Hes) as [Hlen Hat].
  exists es. split_and!; [done | done | | | |].
  - intros pos m Hm. destruct (Hat pos m Hm) as (rgb & _ & Hlook).
    eexists. split; [exact Hlook | done].
  - intros k Hk. apply preorder_index_surj. by rewrite <- Hlen.
  - apply preorder_index_inj.
  - intros pos q m d. apply preorder_index_descendant.
Qed.

Lemma flatten_is_preorder_witness :
  ∃ es, flatten_structure_tree example_tree None = Ok es ∧
        length es = tree_size example_tree.
Proof.
  destruct (flatten_is_preorder example_tree eq_refl) as (es & Hes & Hlen & _).
  exists es. split; [exact Hes | exact Hlen].
Defined.

End FlattenClaims.

(** ** Colours *)

Example hex_to_rgb_ex1 : hex_to_rgb "#FF00a0" = Ok [255; 0; 160].
Proof. reflexivity. Qed.

Example hex_to_rgb_ex2 : hex_to_rgb "12345" = Ok [18; 52; 5].
Proof. reflexivity. Qed.

Example hex_to_rgb_ex3 : hex_to_rgb "-f+f f" = Ok [-15; 15; 15].
Proof. reflexivity. Qed.

Example hex_to_rgb_ex4 : hex_to_rgb "ffff" = Raise ValueError.
Proof. reflexivity. Qed.


Lemma is_hex_digit_value (c : ascii) :
  is_hex_digit c = true → ∃ v, Py.digit_value c = Some v.
Proof. unfold is_hex_digit. destruct (Py.digit_value c); [eauto | done]. Qed.

Lemma hex_to_rgb_pairs (k : nat) (d1 d2 d3 d4 d5 d6 : ascii)
    (v1 v2 v3 v4 v5 v6 : Z) :
  Py.digit_value d1 = Some v1 → Py.digit_value d2 = Some v2 →
  Py.digit_value d3 = Some v3 → Py.digit_value d4 = Some v4 →
  Py.digit_value d5 = Some v5 → Py.digit_value d6 = Some v6 →
  hex_to_rgb
    (hashes k +:+
     String d1 (String d2 (String d3 (String d4 (String d5 (String d6 EmptyString))))))
  = Ok [16 * v1 + v2; 16 * v3 + v4; 16 * v5 + v6].
Proof.
  intros H1 H2 H3 H4 H5 H6. unfold hex_to_rgb.
  rewrite lstrip_hashes by (by eapply digit_not_hash).
  cbn [comprehension Py.slice substring].
  rewrite (int16_pair d1 d2 v1 v2), (int16_pair d3 d4 v3 v4),
    (int16_pair d5 d6 v5 v6) by done.
  reflexivity.
Qed.

Lemma hex_colour_shape (s : string) :
  hex_colour s = true →
  ∃ k d1 d2 d3 d4 d5 d6 v1 v2 v3 v4 v5 v6,
    s = hashes k +:+
        String d1 (String d2 (String d3 (String d4 (String d5 (String d6 EmptyString)))))
    ∧ Py.digit_value d1 = Some v1 ∧ Py.digit_value d2 = Some v2
    ∧ Py.digit_value d3 = Some v3 ∧ Py.digit_value d4 = Some v4
    ∧ Py.digit_value d5 = Some v5 ∧ Py.digit_value d6 = Some v6.
Proof.
  induction s as [|a s IH]; simpl; [done|].
  destruct (Ascii.eqb a "#") eqn:Ha.
  - apply Ascii.eqb_eq in Ha as ->. intros Hs.
    destruct (IH Hs) as (k & d1 & d2 & d3 & d4 & d5 & d6 & v1 & v2 & v3 & v4
                         & v5 & v6 & -> & Hd).
    exists (S k), d1, d2, d3, d4, d5, d6, v1, v2, v3, v4, v5, v6. done.
  - clear IH. destruct s as [|d2 [|d3 [|d4 [|d5 [|d6 [|? ?]]]]]]; try done.
    simpl. rewrite !andb_true_iff.
    intros (H1 & H2 & H3 & H4 & H5 & H6 & _).
    apply is_hex_digit_value in H1 as [v1 H1], H2 as [v2 H2], H3 as [v3 H3],
      H4 as [v4 H4], H5 as [v5 H5], H6 as [v6 H6].
    exists 0%nat, a, d2, d3, d4, d5, d6, v1, v2, v3, v4, v5, v6. done.
Qed.

(** C8: on a string of six hexadecimal digits after any number of [#],
    [hex_to_rgb] returns three integers, the k-th being the base-16 value
    of the k-th pair of digits, each between 0 and 255; hence in the list
    flattened from a hierarchy with such colours every [rgb_triplet] is a
    triple of byte values. *)
Theorem hex_to_rgb_byte_triple :
  (∀ (k : nat) (d1 d2 d3 d4 d5 d6 : ascii) (v1 v2 v3 v4 v5 v6 : Z),
     Py.digit_value d1 = Some v1 → Py.digit_value d2 = Some v2 →
     Py.digit_value d3 = Some v3 → Py.digit_value d4 = Some v4 →
     Py.digit_value d5 = Some v5 → Py.digit_value d6 = Some v6 →
     hex_to_rgb
       (hashes k +:+
        String d1 (String d2 (String d3 (String d4 (String d5 (String d6 EmptyString))))))
     = Ok [16 * v1 + v2; 16 * v3 + v4; 16 * v5 + v6]
     ∧ is_byte (16 * v1 + v2) ∧ is_byte (16 * v3 + v4)
     ∧ is_byte (16 * v5 + v6)) ∧
  (∀ (root : node) (p : option (list Z)) (es : list structure) (e : structure),
     tree_forallb (λ m, hex_colour (color_hex_triplet m)) root = true →
     flatten_structure_tree root p = Ok es → e ∈ es →
     ∃ r g b, rgb_triplet e = [r; g; b] ∧ is_byte r ∧ is_byte g ∧ is_byte b).
Proof.
  assert (∀ k d1 d2 d3 d4 d5 d6 v1 v2 v3 v4 v5 v6,
     Py.digit_value d1 = Some v1 → Py.digit_value d2 = Some v2 →
     Py.digit_value d3 = Some v3 → Py.digit_value d4 = Some v4 →
     Py.digit_value d5 = Some v5 → Py.digit_value d6 = Some v6 →
     hex_to_rgb
       (hashes k +:+
        String d1 (String d2 (String d3 (String d4 (String d5 (String d6 EmptyString))))))
     = Ok [16 * v1 + v2; 16 * v3 + v4; 16 * v5 + v6]
     ∧ is_byte (16 * v1 + v2) ∧ is_byte (16 * v3 + v4)
     ∧ is_byte (16 * v5 + v6)) as Hpairs.
  { intros k d1 d2 d3 d4 d5 d6 v1 v2 v3 v4 v5 v6 H1 H2 H3 H4 H5 H6.
    split; [by apply hex_to_rgb_pairs|].
    apply digit_value_range in H1, H2, H3, H4, H5, H6.
    unfold is_byte. lia. }
  split; [exact Hpairs|].
  intros root p es e Hcol Hes [k Hk]%list_elem_of_lookup.
  destruct (flatten_record_of_node _ _ _ _ _ Hes Hk)
    as (pos & m & rgb & Hm & _ & Hrgb & ->).
  pose proof (tree_forallb_subtree _ _ Hcol pos m Hm) as Hshape. simpl in Hshape.
  apply hex_colour_shape in Hshape
    as (j & d1 & d2 & d3 & d4 & d5 & d6 & v1 & v2 & v3 & v4 & v5 & v6
        & Heq & H1 & H2 & H3 & H4 & H5 & H6).
  destruct (Hpairs j _ _ _ _ _ _ _ _ _ _ _ _ H1 H2 H3 H4 H5 H6)
    as (Hval & Hr & Hg & Hb).
  rewrite Heq, Hval in Hrgb. injection Hrgb as <-.
  simpl. eauto 10.
Qed.

Lemma hex_to_rgb_byte_triple_witness :
  hex_to_rgb "##BFDAE3" = Ok [191; 218; 227]
  ∧ is_byte 191 ∧ is_byte 218 ∧ is_byte 227.
Proof.
  exact (proj1 hex_to_rgb_byte_triple 2%nat "B" "F" "D" "A" "E" "3"
           11 15 13 10 14 3 eq_refl eq_refl eq_refl eq_refl eq_refl eq_refl)%char.
Defined.

(** ** Label arrays *)

Lemma elem_of_unique (v : volume) (x : Z) : x ∈ Np.unique v ↔ x ∈ ravel v.
Proof.
  unfold Np.unique. rewrite merge_sort_Permutation. apply elem_of_remove_dups.
Qed.

Lemma NoDup_unique (v : volume) : NoDup (Np.unique v).
Proof.
  unfold Np.unique. rewrite merge_sort_Permutation. apply NoDup_remove_dups.
Qed.

Lemma Sorted_unique (v : volume) : Sorted Z.le (Np.unique v).
Proof. unfold Np.unique. apply (Sorted_merge_sort Z.le). Qed.

Lemma int32_fits (z : Z) : fits_int32 z → Np.int32 z = z.
Proof.
  unfold fits_int32, Np.int32. intros Hz.
  rewrite Z.mod_small; lia.
Qed.

Lemma contains_elem_of (key : Z) (a : list Z) :
  Np.contains key a = true ↔ key ∈ a.
Proof.
  unfold Np.contains. rewrite existsb_exists, list_elem_of_In. split.
  - by intros (x & Hx & ->%Z.eqb_eq).
  - intros Hk. exists key. by rewrite Z.eqb_refl.
Qed.

Lemma elem_of_label_array (v : volume) (x : Z) :
  x ∈ label_array v ↔ ∃ z, z ∈ ravel v ∧ Np.int32 z = x.
Proof.
  unfold label_array, Np.astype_int32. rewrite list_elem_of_fmap. split.
  - intros (z & -> & Hz). exists z. by rewrite <- elem_of_unique.
  - intros (z & Hz & <-). exists z. by rewrite elem_of_unique.
Qed.

Lemma label_array_fits (v : volume) :
  Forall fits_int32 (ravel v) → label_array v = Np.unique v.
Proof.
  intros Hfit. unfold label_array, Np.astype_int32.
  rewrite <- (list_fmap_id (Np.unique v)) at 2.
  apply list_fmap_ext. intros i z Hz. apply int32_fits.
  rewrite Forall_forall in Hfit. apply Hfit, elem_of_unique.
  apply list_elem_of_lookup. eauto.
Qed.

(** C2, as the code has it: the label array holds the int32 cast of every
    value that occurs in the volume and nothing else, the value 0
    included whenever a voxel is 0; for a volume whose values fit in 32
    bits it is the increasing, duplicate-free list of the values of the
    volume. *)
Theorem label_array_values (v : volume) :
  (∀ x, x ∈ label_array v ↔ ∃ z, z ∈ ravel v ∧ Np.int32 z = x) ∧
  (0 ∈ ravel v → 0 ∈ label_array v) ∧
  (Forall fits_int32 (ravel v) →
     (∀ x, x ∈ label_array v ↔ x ∈ ravel v) ∧
     NoDup (label_array v) ∧ Sorted Z.le (label_array v)).
Proof.
  split_and!.
  - apply elem_of_label_array.
  - intros H0. apply elem_of_label_array. by exists 0.
  - intros Hfit. rewrite (label_array_fits v Hfit). split_and!.
    + intros x. apply elem_of_unique.
    + apply NoDup_unique.
    + apply Sorted_unique.
Qed.

Lemma label_array_values_witness :
  (∀ x, x ∈ label_array example_volume ↔ x ∈ ravel example_volume) ∧
  NoDup (label_array example_volume) ∧
  Sorted Z.le (label_array example_volume).
Proof.
  apply (proj2 (proj2 (label_array_values example_volume))).
  repeat constructor; vm_compute; congruence.
Defined.

(** The background label is part of the label array. *)
Lemma label_array_keeps_zero :
  label_array example_volume = [0; 8; 567; 997] ∧
  0 ∈ label_array example_volume.
Proof. split; [reflexivity | by left]. Qed.

(** ** The tagging loop *)

(** C3, as the code has it: after the tagging loop every node of the tree
    carries a [Region] whose [is_label] is true exactly when the node's id
    is the int32 cast of some voxel value; when the voxel values fit in 32
    bits, exactly when the node's own id occurs in the volume.  Only the
    node's own id is looked at, never its descendants. *)
Theorem tag_nodes_is_label (vol : volume) (tree : Tree) (i : nat) (key : Z)
    (node : TreeNode) :
  nodes tree !! i = Some (key, node) →
  ∃ b, nodes (tag_nodes (label_array vol) tree) !! i
         = Some (key, set_data node {| is_label := b |}) ∧
       (b = true ↔ ∃ z, z ∈ ravel vol ∧ Np.int32 z = key) ∧
       (Forall fits_int32 (ravel vol) → (b = true ↔ key ∈ ravel vol)).
Proof.
  intros Hi. exists (Np.contains key (label_array vol)). split_and!.
  - unfold tag_nodes. simpl. rewrite list_lookup_fmap, Hi. simpl.
    by destruct (Np.contains key (label_array vol)).
  - by rewrite contains_elem_of, elem_of_label_array.
  - intros Hfit.
    by rewrite contains_elem_of, (label_array_fits vol Hfit), elem_of_unique.
Qed.

Lemma tag_nodes_is_label_witness :
  ∃ b, nodes (tag_nodes (label_array example_volume) example_nodes) !! 2%nat
         = Some (73, set_data {| identifier := 73; tag := "VS"; data := None |}
                       {| is_label := b |}) ∧
       (b = true ↔ ∃ z, z ∈ ravel example_volume ∧ Np.int32 z = 73) ∧
       (Forall fits_int32 (ravel example_volume) →
        (b = true ↔ 73 ∈ ravel example_volume)).
Proof. exact (tag_nodes_is_label example_volume example_nodes 2 73 _ eq_refl). Defined.

(** A region whose id does not fit in 32 bits is tagged as absent although
    its id is a voxel value. *)
Lemma tag_nodes_misses_wide_id :
  3000000000 ∈ ravel wide_volume ∧
  nodes (tag_nodes (label_array wide_volume) wide_tree)
  = [ (3000000000,
       {| identifier := 3000000000; tag := "wide";
          data := Some {| is_label := false |} |}) ].
Proof. split; [by left | reflexivity]. Qed.

(** ** The presence filter *)

Lemma filter_structures_as_filter (structures : list structure)
    (annotation : volume) :
  filter_structures_not_present_in_annotation structures annotation
  = filter (λ s, id s ∈ ravel annotation) structures.
Proof.
  unfold filter_structures_not_present_in_annotation.
  apply list_filter_iff. intros s.
  by rewrite elem_of_list_to_set, elem_of_unique.
Qed.

(** C4: the filter returns the records of the input whose id is a voxel
    value of the annotation, and only those, unchanged and in their
    original order; the records whose id does not occur are removed. *)
Theorem filter_structures_keeps_present (structures : list structure)
    (annotation : volume) :
  let filtered :=
    filter_structures_not_present_in_annotation structures annotation in
  filtered = filter (λ s, id s ∈ ravel annotation) structures ∧
  (∀ s, s ∈ filtered ↔ s ∈ structures ∧ id s ∈ ravel annotation) ∧
  filtered `sublist_of` structures ∧
  (∀ s, id s ∉ ravel annotation → s ∉ filtered).
Proof.
  simpl. rewrite filter_structures_as_filter. split_and!.
  - done.
  - intros s. rewrite list_elem_of_filter. tauto.
  - apply sublist_filter.
  - intros s Hs. rewrite list_elem_of_filter. tauto.
Qed.

(** C9: filtering twice with one annotation is filtering once, and the
    output is the input with some elements deleted. *)
Theorem filter_structures_idempotent (structures : list structure)
    (annotation : volume) :
  filter_structures_not_present_in_annotation
    (filter_structures_not_present_in_annotation structures annotation)
    annotation
  = filter_structures_not_present_in_annotation structures annotation ∧
  filter_structures_not_present_in_annotation structures annotation
    `sublist_of` structures.
Proof.
  rewrite !filter_structures_as_filter. split; [|apply sublist_filter].
  rewrite list_filter_filter. apply list_filter_iff. tauto.
Qed.

Example filter_example :
  filter_structures_not_present_in_annotation example_structures example_volume
  = [ Structure 997 "root" "root" [997] [255; 255; 255];
      Structure 8 "Basic cell groups and regions" "grey" [997; 8] [191; 218; 227];
      Structure 567 "Cerebrum" "CH" [997; 8; 567] [176; 240; 255] ].
Proof. vm_compute. reflexivity. Qed.

(** ** The dictionary of meshes *)

Section Catalog.

Variables (dir : string) (fs : filesystem).

Lemma usable_mesh_spec (k : Z) :
  usable_mesh dir fs k = true ↔
  ∃ f, fs !! Path.join dir (obj_name k) = Some f ∧ 512 ≤ Path.st_size f.
Proof.
  unfold usable_mesh. destruct (fs !! _) as [f|]; split.
  - intros Hf%negb_true_iff%Z.ltb_ge. eauto.
  - intros (f' & [= <-] & Hf). by apply negb_true_iff, Z.ltb_ge.
  - done.
  - by intros (f & [=] & _).
Qed.

Lemma keep_mesh_snd (acc : list structure * gmap Z string) (s : structure) :
  (keep_mesh dir fs acc s).2 =
    if usable_mesh dir fs (id s)
    then <[id s := Path.join dir (obj_name (id s))]> acc.2
    else acc.2.
Proof.
  destruct acc as [l d]. unfold keep_mesh, usable_mesh.
  destruct (fs !! _) as [f|]; [|done]. by destruct (_ <? _).
Qed.

(** What the loop leaves under a key: the mesh path when a structure of
    the list has that id and its file passes the test, the old entry
    otherwise. *)
Lemma keep_mesh_fold (structures : list structure) :
  ∀ (acc : list structure * gmap Z string) (k : Z),
    (foldl (keep_mesh dir fs) acc structures).2 !! k =
      if decide (usable_mesh dir fs k = true ∧ k ∈ id <$> structures)
      then Some (Path.join dir (obj_name k))
      else acc.2 !! k.
Proof.
  induction structures as [|s l IH]; intros acc k; simpl.
  - rewrite decide_False; [done|]. by intros [_ ?%elem_of_nil].
  - rewrite IH, keep_mesh_snd. clear IH.
    destruct (decide (id s = k)) as [<-|Hne].
    + destruct (usable_mesh dir fs (id s)) eqn:Hu.
      * rewrite (decide_True (P := _ ∧ id s ∈ id s :: _))
          by (split; [done | left]).
        case_decide; [done | by rewrite lookup_insert_eq].
      * rewrite !decide_False by (by intros [? _]). done.
    + assert (k ∈ id s :: (id <$> l) ↔ k ∈ id <$> l) as Hk.
      { rewrite elem_of_cons. split; [intros [->|?]; done | by right]. }
      destruct (decide (usable_mesh dir fs k = true ∧ k ∈ id <$> l)) as [Hin|Hout].
      * rewrite decide_True; [done|]. by rewrite Hk.
      * rewrite decide_False by (by rewrite Hk).
        destruct (usable_mesh dir fs (id s)); [|done].
        by rewrite lookup_insert_ne.
Qed.

End Catalog.

(** ** The mesh driver *)

Section DriverProperties.

Variable get_structures_tree : list structure → result Tree.
Variable create_region_mesh : mesh_args → filesystem → result filesystem.
Variable this : script.

Lemma create_meshes_app (dir : string) (tree : Tree) (labels : list Z)
    (vol : volume) (done todo : list TreeNode) (fs : filesystem) :
  create_meshes create_region_mesh this dir tree labels vol (done ++ todo) fs
  = (fs1 ← create_meshes create_region_mesh this dir tree labels vol done fs;
     create_meshes create_region_mesh this dir tree labels vol todo fs1).
Proof.
  revert fs. induction done as [|n done IH]; intros fs; simpl; [done|].
  destruct (create_region_mesh _ fs) as [fs1|e]; simpl; [apply IH | done].
Qed.

Lemma create_meshes_returns (dir : string) (tree : Tree) (labels : list Z)
    (vol : volume) (todo : list TreeNode) :
  (∀ args fs, ∃ fs', create_region_mesh args fs = Ok fs') →
  ∀ fs, ∃ fs',
    create_meshes create_region_mesh this dir tree labels vol todo fs = Ok fs'.
Proof.
  intros Hcrm. induction todo as [|n todo IH]; intros fs; simpl; [eauto|].
  destruct (Hcrm (region_mesh_args this dir tree labels vol n) fs) as [fs1 ->].
  simpl. apply IH.
Qed.

Lemma retrieve_or_construct_meshes_Ok (download_path : string)
    (vol : volume) (structures : list structure) (fs fs' : filesystem)
    (tree' : Tree) (meshes_dict : gmap Z string) :
  retrieve_or_construct_meshes get_structures_tree create_region_mesh this
    download_path vol structures fs = Ok (fs', tree', meshes_dict) →
  ∃ tree,
    Path.mkdir_exist_ok (Path.join download_path "meshes") fs = Ok fs ∧
    get_structures_tree structures = Ok tree ∧
    tree' = tag_nodes (label_array vol) tree ∧
    create_meshes create_region_mesh this (Path.join download_path "meshes")
      tree' (label_array vol) vol (snd <$> nodes tree') fs = Ok fs' ∧
    meshes_dict =
      (foldl (keep_mesh (Path.join download_path "meshes") fs') ([], ∅)
         structures).2.
Proof.
  unfold retrieve_or_construct_meshes. intros Hrun.
  apply bind_Ok in Hrun as (fs0 & Hmk & Hrun).
  assert (fs0 = fs) as ->.
  { unfold Path.mkdir_exist_ok in Hmk. by destruct (Path.exists_ _ _); simplify_eq. }
  apply bind_Ok in Hrun as (tree & Htree & Hrun).
  apply bind_Ok in Hrun as (fs1 & Hloop & Hrun).
  destruct (foldl _ _ _) as [kept d] eqn:Hfold. simplify_eq.
  exists tree. by rewrite Hfold.
Qed.

(** C1: when the driver returns its dictionary, the id of a structure of
    the input list is a key exactly when the file [meshes/<id>.obj] is
    there at the end of the run with at least 512 bytes, and it is then
    mapped to that path; the dictionary has no other keys. *)
Theorem meshes_dict_usable_files (download_path : string) (vol : volume)
    (structures : list structure) (fs fs' : filesystem) (tree' : Tree)
    (meshes_dict : gmap Z string) :
  retrieve_or_construct_meshes get_structures_tree create_region_mesh this
    download_path vol structures fs = Ok (fs', tree', meshes_dict) →
  (∀ s, s ∈ structures →
     (is_Some (meshes_dict !! id s) ↔
      ∃ f, fs' !! mesh_path_of download_path (id s) = Some f ∧
           512 ≤ Path.st_size f) ∧
     (∀ p, meshes_dict !! id s = Some p →
           p = mesh_path_of download_path (id s))) ∧
  (∀ k p, meshes_dict !! k = Some p →
     (∃ s, s ∈ structures ∧ id s = k) ∧
     p = mesh_path_of download_path k ∧
     ∃ f, fs' !! p = Some f ∧ 512 ≤ Path.st_size f).
Proof.
  intros Hrun.
  apply retrieve_or_construct_meshes_Ok in Hrun
    as (tree & _ & _ & _ & _ & ->).
  set (dir := Path.join download_path "meshes").
  assert (∀ k p,
    (foldl (keep_mesh dir fs') ([], ∅) structures).2 !! k = Some p ↔
    p = mesh_path_of download_path k ∧ k ∈ id <$> structures ∧
    ∃ f, fs' !! mesh_path_of download_path k = Some f ∧ 512 ≤ Path.st_size f)
    as Hkey.
  { intros k p. rewrite keep_mesh_fold. simpl. rewrite lookup_empty.
    unfold mesh_path_of. fold dir. rewrite <- (usable_mesh_spec dir fs' k).
    case_decide as Hd; split.
    - intros [= <-]. tauto.
    - by intros (-> & _).
    - done.
    - intros (_ & Hin & Hu). tauto. }
  split.
  - intros s Hs. split.
    + split.
      * intros [p Hp]. apply Hkey in Hp. tauto.
      * intros Hf. exists (mesh_path_of download_path (id s)).
        apply Hkey. split_and!; [done | | done].
        apply list_elem_of_fmap. eauto.
    + intros p Hp. apply Hkey in Hp. tauto.
  - intros k p Hp. apply Hkey in Hp as (-> & Hin & Hf).
    apply list_elem_of_fmap in Hin as (s & -> & Hs). eauto.
Qed.

(** C6, as the code has it: the mesh loop has no handler.  When
    [create_region_mesh] raises at a node, the driver ends with that
    exception whatever nodes come later, and returns no dictionary; when
    [create_region_mesh] returns at every node, empty regions included,
    the loop goes through all nodes and the driver returns. *)
Theorem create_region_mesh_failure_ends_run (download_path : string)
    (vol : volume) (structures : list structure) (fs : filesystem)
    (tree : Tree) :
  let dir := Path.join download_path "meshes" in
  let labels := label_array vol in
  let tagged := tag_nodes labels tree in
  Path.mkdir_exist_ok dir fs = Ok fs →
  get_structures_tree structures = Ok tree →
  (∀ done node todo fs1 e,
     snd <$> nodes tagged = done ++ node :: todo →
     create_meshes create_region_mesh this dir tagged labels vol done fs
       = Ok fs1 →
     create_region_mesh (region_mesh_args this dir tagged labels vol node) fs1
       = Raise e →
     retrieve_or_construct_meshes get_structures_tree create_region_mesh this
       download_path vol structures fs = Raise e) ∧
  ((∀ args fs0, ∃ fs', create_region_mesh args fs0 = Ok fs') →
   ∃ fs' meshes_dict,
     retrieve_or_construct_meshes get_structures_tree create_region_mesh this
       download_path vol structures fs = Ok (fs', tagged, meshes_dict)).
Proof.
  intros dir labels tagged Hmk Htree. subst dir labels tagged. split.
  - intros done node todo fs1 e Hnodes Hdone Hraise.
    unfold retrieve_or_construct_meshes. rewrite Hmk. cbn [mbind result_bind].
    rewrite Htree. cbn [mbind result_bind].
    rewrite Hnodes, create_meshes_app, Hdone.
    cbn [mbind result_bind create_meshes]. by rewrite Hraise.
  - intros Hcrm.
    destruct (create_meshes_returns (Path.join download_path "meshes")
                (tag_nodes (label_array vol) tree) (label_array vol) vol
                (snd <$> nodes (tag_nodes (label_array vol) tree)) Hcrm fs)
      as [fs' Hloop].
    unfold retrieve_or_construct_meshes. rewrite Hmk. cbn [mbind result_bind].
    rewrite Htree. cbn [mbind result_bind]. rewrite Hloop.
    cbn [mbind result_bind].
    destruct (foldl _ _ _) as [kept d]. eauto.
Qed.

End DriverProperties.

Lemma meshes_dict_usable_files_witness :
  ∃ fs' tree' meshes_dict,
    retrieve_or_construct_meshes example_get_structures_tree
      (create_region_mesh_spec example_compute)
      allen_bbp_ccfv3a_entire_mouse_brain "atlas" example_volume
      example_structures ∅ = Ok (fs', tree', meshes_dict) ∧
    (is_Some (meshes_dict !! 567) ↔
     ∃ f, fs' !! mesh_path_of "atlas" 567 = Some f ∧ 512 ≤ Path.st_size f).
Proof.
  destruct (retrieve_or_construct_meshes example_get_structures_tree
              (create_region_mesh_spec example_compute)
              allen_bbp_ccfv3a_entire_mouse_brain "atlas" example_volume
              example_structures ∅) as [[[fs' tree'] d]|e] eqn:Hrun;
    [|vm_compute in Hrun; discriminate Hrun].
  exists fs', tree', d. split; [reflexivity|].
  apply (proj1 (meshes_dict_usable_files _ _ _ _ _ _ _ _ _ _ Hrun)
           (Structure 567 "Cerebrum" "CH" [997; 8; 567] [176; 240; 255])).
  do 2 right. left.
Defined.

Example meshes_dict_example :
  (λ r, match r with Ok (_, _, d) => Some (map_to_list d) | Raise _ => None end)
    (retrieve_or_construct_meshes example_get_structures_tree
       (create_region_mesh_spec example_compute)
       demba_dev_mouse "atlas" example_volume example_structures ∅)
  = Some [ (997, "atlas/meshes/997.obj"); (8, "atlas/meshes/8.obj") ].
Proof. vm_compute. reflexivity. Qed.

Lemma create_region_mesh_failure_ends_run_witness :
  retrieve_or_construct_meshes example_get_structures_tree
    failing_create_region_mesh demba_dev_mouse "atlas" example_volume
    example_structures ∅
  = Raise (OtherError "mesh extraction failed").
Proof.
  assert (Path.mkdir_exist_ok (Path.join "atlas" "meshes") (∅ : filesystem)
          = Ok ∅) as Hmk by (vm_compute; reflexivity).
  eapply (proj1 (create_region_mesh_failure_ends_run
                   example_get_structures_tree failing_create_region_mesh
                   demba_dev_mouse "atlas" example_volume example_structures
                   ∅ _ Hmk eq_refl))
    with (done := [ {| identifier := 997; tag := "root";
                       data := Some {| is_label := true |} |} ])
         (node := {| identifier := 8; tag := "Basic cell groups and regions";
                     data := Some {| is_label := true |} |}).
  - vm_compute. reflexivity.
  - vm_compute. reflexivity.
  - vm_compute. reflexivity.
Defined.

(** The mesher raises at region 8; regions 567 and 73 come after it in the
    tree.  The run ends with the exception and without a dictionary,
    while the same run with a mesher that returns at every node yields
    one. *)
Lemma failure_at_one_region_aborts_the_run :
  let run :=
    retrieve_or_construct_meshes example_get_structures_tree
      failing_create_region_mesh allen_bbp_ccfv3a_entire_mouse_brain "atlas"
      example_volume example_structures ∅ in
  id <$> example_structures = [997; 8; 567; 73] ∧
  run = Raise (OtherError "mesh extraction failed") ∧
  returns run = false ∧
  returns
    (retrieve_or_construct_meshes example_get_structures_tree
       (create_region_mesh_spec example_compute)
       allen_bbp_ccfv3a_entire_mouse_brain "atlas"
       example_volume example_structures ∅) = true.
Proof. vm_compute. done. Qed.

(** ** Re-runs over an existing mesh directory *)

Section Rerun.

Variable get_structures_tree : list structure → result Tree.
Variable compute : mesh_args → stage_outcome.
Variable this : script.

Lemma create_region_mesh_spec_skip (other : mesh_args → stage_outcome)
    (args : mesh_args) (fs : filesystem) :
  is_Some (fs !! Path.join (meshes_dir_path args)
                   (obj_name (identifier (arg_node args)))) →
  create_region_mesh_spec other args fs = Ok fs.
Proof.
  intros Hex. unfold create_region_mesh_spec, Path.exists_.
  by rewrite bool_decide_eq_true_2.
Qed.

Lemma create_region_mesh_spec_grows (args : mesh_args) (fs : filesystem) :
  ∃ fs', create_region_mesh_spec compute args fs = Ok fs' ∧ fs ⊆ fs'.
Proof.
  unfold create_region_mesh_spec, Path.exists_.
  case_bool_decide as Hex; [by exists fs|].
  destruct (compute args); [by exists fs | by exists fs |].
  eexists. split; [done|]. apply insert_subseteq.
  by apply eq_None_not_Some.
Qed.

Lemma create_meshes_spec_grows (dir : string) (tree : Tree)
    (labels : list Z) (vol : volume) (todo : list TreeNode) :
  ∀ fs, ∃ fs',
    create_meshes (create_region_mesh_spec compute) this dir tree labels vol
      todo fs = Ok fs' ∧ fs ⊆ fs'.
Proof.
  induction todo as [|n todo IH]; intros fs; simpl; [by exists fs|].
  destruct (create_region_mesh_spec_grows
              (region_mesh_args this dir tree labels vol n) fs)
    as (fs1 & -> & Hsub1).
  destruct (IH fs1) as (fs' & Hrun & Hsub). exists fs'.
  split; [done | by transitivity fs1].
Qed.

(** C7: with the writer of the spec, a run of the driver leaves every
    file that was in place before it with its contents, the mesh files
    of earlier runs among them; and a call for a node whose file is
    there changes no file at all, whatever the mesh stages would
    compute. *)
Theorem rerun_keeps_existing_files (download_path : string) (vol : volume)
    (structures : list structure) (fs fs' : filesystem) (tree' : Tree)
    (meshes_dict : gmap Z string) :
  retrieve_or_construct_meshes get_structures_tree
    (create_region_mesh_spec compute) this download_path vol structures fs
    = Ok (fs', tree', meshes_dict) →
  (∀ p f, fs !! p = Some f → fs' !! p = Some f) ∧
  (∀ (other : mesh_args → stage_outcome) args fs0,
     is_Some (fs0 !! Path.join (meshes_dir_path args)
                       (obj_name (identifier (arg_node args)))) →
     create_region_mesh_spec other args fs0 = Ok fs0).
Proof.
  intros Hrun. split; [|apply create_region_mesh_spec_skip].
  apply retrieve_or_construct_meshes_Ok in Hrun
    as (tree & _ & _ & -> & Hloop & _).
  destruct (create_meshes_spec_grows (Path.join download_path "meshes")
              (tag_nodes (label_array vol) tree) (label_array vol) vol
              (snd <$> nodes (tag_nodes (label_array vol) tree)) fs)
    as (fs1 & Hrun1 & Hsub).
  rewrite Hrun1 in Hloop. injection Hloop as <-.
  intros p f Hp. by eapply lookup_weaken.
Qed.

End Rerun.

Lemma rerun_keeps_existing_files_witness :
  ∃ fs' tree' meshes_dict,
    retrieve_or_construct_meshes example_get_structures_tree
      (create_region_mesh_spec example_compute)
      allen_bbp_ccfv3a_entire_mouse_brain "atlas" example_volume
      example_structures example_files = Ok (fs', tree', meshes_dict) ∧
    fs' !! mesh_path_of "atlas" 997 = Some [x76; x20; x30].
Proof.
  destruct (retrieve_or_construct_meshes example_get_structures_tree
              (create_region_mesh_spec example_compute)
              allen_bbp_ccfv3a_entire_mouse_brain "atlas" example_volume
              example_structures example_files)
    as [[[fs' tree'] d]|e] eqn:Hrun;
    [|vm_compute in Hrun; discriminate Hrun].
  exists fs', tree', d. split; [reflexivity|].
  apply (proj1 (rerun_keeps_existing_files _ _ _ _ _ _ _ _ _ _ Hrun)).
  reflexivity.
Defined.

(** * Further properties of the scripts *)

(** ** Colours outside the expected format *)

Lemma elem_of_all_ascii (a : ascii) : a ∈ all_ascii.
Proof.
  unfold all_ascii. apply list_elem_of_fmap. exists (nat_of_ascii a).
  split; [by rewrite ascii_nat_embedding|].
  apply elem_of_seq. pose proof (nat_ascii_bounded a). lia.
Qed.

Lemma component_in_range_pairs :
  forallb (λ a, forallb (λ b, component_in_range (String a (String b EmptyString)))
                        all_ascii) all_ascii = true.
Proof. vm_compute. reflexivity. Qed.

Lemma component_in_range_singles :
  forallb (λ a, component_in_range (String a EmptyString)) all_ascii = true.
Proof. vm_compute. reflexivity. Qed.

Lemma component_in_range_short (s : string) :
  (String.length s ≤ 2)%nat → component_in_range s = true.
Proof.
  destruct s as [|a [|b [|c s]]]; simpl; intros Hlen; [done| | |lia].
  - pose proof component_in_range_singles as H.
    rewrite forallb_forall in H. apply H, list_elem_of_In, elem_of_all_ascii.
  - pose proof component_in_range_pairs as H.
    rewrite forallb_forall in H.
    specialize (H a (proj1 (list_elem_of_In _ _) (elem_of_all_ascii a))).
    rewrite forallb_forall in H.
    apply H, list_elem_of_In, elem_of_all_ascii.
Qed.

Lemma substring_length_le (i n : nat) (s : string) :
  (String.length (substring i n s) ≤ n)%nat.
Proof.
  revert i n. induction s as [|a s IH]; intros [|i] [|n]; simpl; try lia.
  - specialize (IH 0%nat n). lia.
  - apply (IH i 0%nat).
  - apply (IH i (S n)).
Qed.

Lemma int16_slice (i : nat) (s : string) :
  match Py.int16 (Py.slice i 2 s) with
  | Ok v => -15 ≤ v ≤ 255
  | Raise e => e = ValueError
  end.
Proof.
  pose proof (component_in_range_short (Py.slice i 2 s)
                (substring_length_le i 2 s)) as H.
  unfold component_in_range in H.
  destruct (Py.int16 _) as [v|[]]; try done.
  apply andb_true_iff in H as [?%Z.leb_le ?%Z.leb_le]. lia.
Qed.

(** X1: whatever the string, when [hex_to_rgb] returns it returns exactly
    three integers, each between -15 and 255; a component can be negative
    because a two-character slice may be a sign and a digit. *)
Theorem hex_to_rgb_three_bounded (s : string) (l : list Z) :
  hex_to_rgb s = Ok l →
  ∃ r g b, l = [r; g; b] ∧
           -15 ≤ r ≤ 255 ∧ -15 ≤ g ≤ 255 ∧ -15 ≤ b ≤ 255.
Proof.
  unfold hex_to_rgb. cbn [comprehension].
  pose proof (int16_slice 0 (Py.lstrip "#" s)) as H0.
  pose proof (int16_slice 2 (Py.lstrip "#" s)) as H2.
  pose proof (int16_slice 4 (Py.lstrip "#" s)) as H4.
  destruct (Py.int16 (Py.slice 0 2 _)) as [r|]; [|done].
  destruct (Py.int16 (Py.slice 2 2 _)) as [g|]; [|done].
  destruct (Py.int16 (Py.slice 4 2 _)) as [b|]; [|done].
  intros [= <-]. eauto 10.
Qed.

Lemma hex_to_rgb_three_bounded_witness :
  ∃ r g b, [-15; 18; 52] = [r; g; b] ∧
           -15 ≤ r ≤ 255 ∧ -15 ≤ g ≤ 255 ∧ -15 ≤ b ≤ 255.
Proof. exact (hex_to_rgb_three_bounded "#-f1234" [-15; 18; 52] eq_refl). Defined.

Lemma hex_to_rgb_raises_ValueError (s : string) (e : exn) :
  hex_to_rgb s = Raise e → e = ValueError.
Proof.
  unfold hex_to_rgb. cbn [comprehension].
  pose proof (int16_slice 0 (Py.lstrip "#" s)) as H0.
  pose proof (int16_slice 2 (Py.lstrip "#" s)) as H2.
  pose proof (int16_slice 4 (Py.lstrip "#" s)) as H4.
  destruct (Py.int16 (Py.slice 0 2 _)) as [r|]; [|by intros [= <-]].
  destruct (Py.int16 (Py.slice 2 2 _)) as [g|]; [|by intros [= <-]].
  destruct (Py.int16 (Py.slice 4 2 _)) as [b|]; [done | by intros [= <-]].
Qed.

Lemma substring_past_end (i n : nat) (s : string) :
  (String.length s ≤ i)%nat → substring i n s = EmptyString.
Proof.
  revert i n. induction s as [|a s IH]; intros [|i] n; simpl; intros Hlen;
    try lia.
  - by destruct n.
  - done.
  - apply IH. lia.
Qed.

(** X2: a colour with fewer than five characters after its leading [#]
    makes [hex_to_rgb] raise [ValueError]: the third slice is empty. *)
Theorem hex_to_rgb_short_raises (s : string) :
  (String.length (Py.lstrip "#" s) < 5)%nat →
  hex_to_rgb s = Raise ValueError.
Proof.
  intros Hlen. unfold hex_to_rgb. cbn [comprehension].
  pose proof (int16_slice 0 (Py.lstrip "#" s)) as H0.
  pose proof (int16_slice 2 (Py.lstrip "#" s)) as H2.
  destruct (Py.int16 (Py.slice 0 2 _)) as [r|]; [|by subst].
  destruct (Py.int16 (Py.slice 2 2 _)) as [g|]; [|by subst].
  unfold Py.slice at 1. rewrite substring_past_end by lia. reflexivity.
Qed.

Lemma hex_to_rgb_short_raises_witness : hex_to_rgb "#FFF" = Raise ValueError.
Proof. apply hex_to_rgb_short_raises. simpl. lia. Defined.

Lemma lstrip_app (s t : string) :
  Py.lstrip "#" s ≠ EmptyString →
  Py.lstrip "#" (s +:+ t) = Py.lstrip "#" s +:+ t.
Proof.
  induction s as [|a s IH]; simpl; [done|].
  destruct (Ascii.eqb a "#"); [exact IH | done].
Qed.

Lemma substring_app_l (i n : nat) (u t : string) :
  (i + n ≤ String.length u)%nat →
  substring i n (u +:+ t) = substring i n u.
Proof.
  revert i n. induction u as [|a u IH]; intros i n; simpl.
  - intros Hlen. assert (i = 0 ∧ n = 0)%nat as [-> ->] by lia. by destruct t.
  - destruct i as [|i]; intros Hlen.
    + destruct n as [|n]; [done|]. f_equal. apply (IH 0%nat). simpl. lia.
    + apply IH. lia.
Qed.

(** X3: the conversion does not check the length of a colour: what
    follows the sixth character after the leading [#] is ignored. *)
Theorem hex_to_rgb_ignores_tail (s t : string) :
  (6 ≤ String.length (Py.lstrip "#" s))%nat →
  hex_to_rgb (s +:+ t) = hex_to_rgb s.
Proof.
  intros Hlen. unfold hex_to_rgb.
  rewrite lstrip_app by (intros Hs; rewrite Hs in Hlen; simpl in Hlen; lia).
  cbn [comprehension]. unfold Py.slice.
  by rewrite !substring_app_l by lia.
Qed.

Lemma hex_to_rgb_ignores_tail_witness :
  hex_to_rgb ("#FF00A0" +:+ "zz and more") = hex_to_rgb "#FF00A0".
Proof. apply hex_to_rgb_ignores_tail. simpl. lia. Defined.

Lemma int16_single (a : ascii) (v : Z) :
  Py.digit_value a = Some v → Py.int16 (String a EmptyString) = Ok v.
Proof.
  intros Ha.
  each_ascii a; vm_compute in Ha; try discriminate Ha;
    injection Ha as <-; reflexivity.
Qed.

(** X4: a colour of five hexadecimal digits is accepted: the third
    component is then the value of the fifth digit alone. *)
Theorem hex_to_rgb_five_digits (k : nat) (d1 d2 d3 d4 d5 : ascii)
    (v1 v2 v3 v4 v5 : Z) :
  Py.digit_value d1 = Some v1 → Py.digit_value d2 = Some v2 →
  Py.digit_value d3 = Some v3 → Py.digit_value d4 = Some v4 →
  Py.digit_value d5 = Some v5 →
  hex_to_rgb
    (hashes k +:+ String d1 (String d2 (String d3 (String d4 (String d5 EmptyString)))))
  = Ok [16 * v1 + v2; 16 * v3 + v4; v5].
Proof.
  intros H1 H2 H3 H4 H5. unfold hex_to_rgb.
  rewrite lstrip_hashes by (by eapply digit_not_hash).
  cbn [comprehension Py.slice substring].
  rewrite (int16_pair d1 d2 v1 v2), (int16_pair d3 d4 v3 v4),
    (int16_single d5 v5) by done.
  reflexivity.
Qed.

Lemma hex_to_rgb_five_digits_witness :
  hex_to_rgb "#BFDAE" = Ok [191; 218; 14].
Proof.
  exact (hex_to_rgb_five_digits 1 "B" "F" "D" "A" "E" 11 15 13 10 14
           eq_refl eq_refl eq_refl eq_refl eq_refl)%char.
Defined.

(** ** More on the flattening *)

Section FlattenMore.

Local Open Scope nat_scope.

Lemma tree_forallb_intro (P : node → bool) (n : node) :
  (∀ pos m, subtree n pos = Some m → P m = true) → tree_forallb P n = true.
Proof.
  induction n as [n IH] using node_kids_ind.
  rewrite Forall_lookup in IH.
  intros HP. rewrite tree_forallb_kids. apply andb_true_iff. split.
  - by apply (HP []).
  - apply forallb_forall. intros c [i Hc]%list_elem_of_In%list_elem_of_lookup.
    apply (IH i c Hc). intros pos m Hm. apply (HP (i :: pos)). simpl.
    by rewrite Hc.
Qed.

Lemma flatten_forest_raises (cs : list node) :
  Forall (λ c, ∀ p e, flatten_structure_tree c p = Raise e → e = ValueError) cs →
  ∀ path e, flatten_forest path cs = Raise e → e = ValueError.
Proof.
  induction 1 as [|c cs Hc _ IH]; intros path e; simpl; [done|].
  destruct (flatten_structure_tree c (Some path)) as [es|e'] eqn:Hes; simpl.
  - destruct (flatten_forest path cs) as [rest|e'] eqn:Hrest; simpl; [done|].
    intros [= <-]. by eapply IH.
  - intros [= <-]. by eapply Hc.
Qed.

Lemma flatten_raises (n : node) :
  ∀ p e, flatten_structure_tree n p = Raise e → e = ValueError.
Proof.
  induction n as [n IH] using node_kids_ind.
  intros p e. rewrite flatten_unfold.
  destruct (hex_to_rgb (color_hex_triplet n)) as [rgb|e'] eqn:Hrgb; simpl.
  - destruct (flatten_forest _ (kids n)) as [rest|e'] eqn:Hrest; simpl; [done|].
    intros [= <-]. by eapply flatten_forest_raises.
  - intros [= <-]. by eapply hex_to_rgb_raises_ValueError.
Qed.

(** X5: the flattening returns a list exactly when the colour of every
    node of the hierarchy converts; otherwise it raises [ValueError] and
    no record at all is returned. *)
Theorem flatten_returns_iff_colours (n : node) (p : option (list Z)) :
  returns (flatten_structure_tree n p) = colours_convert n ∧
  (∀ e, flatten_structure_tree n p = Raise e → e = ValueError).
Proof.
  split; [|apply flatten_raises].
  destruct (colours_convert n) eqn:Hcol.
  - destruct (flatten_returns n Hcol p) as [es ->]. done.
  - destruct (flatten_structure_tree n p) as [es|e] eqn:Hes; [|done].
    exfalso. rewrite <- not_true_iff_false in Hcol. apply Hcol.
    apply tree_forallb_intro. intros pos m Hm.
    destruct (flatten_at n p es Hes) as [_ Hat].
    destruct (Hat pos m Hm) as (rgb & -> & _). done.
Qed.

Lemma flatten_forest_prefix (cs : list node) :
  Forall (λ c, ∀ p q, flatten_structure_tree c (Some (p ++ q))
                 = prefix_paths p (flatten_structure_tree c (Some q))) cs →
  ∀ p q, flatten_forest (p ++ q) cs = prefix_paths p (flatten_forest q cs).
Proof.
  induction 1 as [|c cs Hc _ IH]; intros p q; simpl; [done|].
  rewrite Hc, IH. unfold prefix_paths.
  destruct (flatten_structure_tree c (Some q)) as [es|e]; simpl; [|done].
  destruct (flatten_forest q cs) as [rest|e]; simpl; [|done].
  by rewrite fmap_app.
Qed.

Lemma flatten_prefix_app (n : node) :
  ∀ p q, flatten_structure_tree n (Some (p ++ q))
         = prefix_paths p (flatten_structure_tree n (Some q)).
Proof.
  induction n as [n IH] using node_kids_ind.
  intros p q. rewrite !flatten_unfold. unfold prefix_paths. simpl.
  destruct (hex_to_rgb (color_hex_triplet n)) as [rgb|e]; simpl; [|done].
  rewrite <- !app_assoc. rewrite (flatten_forest_prefix _ IH). unfold prefix_paths.
  destruct (flatten_forest (q ++ [node_id n]) (kids n)) as [rest|e]; simpl;
    [|done].
  done.
Qed.

Lemma flatten_default (n : node) (p : option (list Z)) :
  flatten_structure_tree n p = flatten_structure_tree n (Some (default [] p)).
Proof. by rewrite !flatten_unfold. Qed.

(** X6: the [structure_id_path] argument is a prefix and nothing more:
    flattening a node under a path gives the records of flattening it
    alone, each with that path put in front of its own. *)
Theorem flatten_under_path (n : node) (p : list Z) :
  flatten_structure_tree n (Some p)
  = prefix_paths p (flatten_structure_tree n None).
Proof.
  rewrite (flatten_default n None). simpl.
  rewrite <- (flatten_prefix_app n p []). by rewrite app_nil_r.
Qed.

End FlattenMore.

(** ** Subtrees and ancestors in the flattened list *)

Section FlattenBlocks.

Local Open Scope nat_scope.

Lemma preorder_index_fits (n : node) :
  ∀ pos m, subtree n pos = Some m →
    preorder_index n pos + tree_size m ≤ tree_size n.
Proof.
  induction n as [n IH] using node_kids_ind.
  rewrite Forall_lookup in IH.
  intros [|i pos] m Hm; cbn [preorder_index subtree] in *.
  { injection Hm as ->. lia. }
  destruct (kids n !! i) as [c|] eqn:Hc; [|done].
  specialize (IH i c Hc pos m Hm).
  pose proof (sizes_take_lookup i _ c Hc) as Hfit.
  rewrite (tree_size_kids n). unfold sizes in *. lia.
Qed.

Lemma flatten_forest_block (cs : list node) :
  ∀ path rest i c,
    flatten_forest path cs = Ok rest → cs !! i = Some c →
    flatten_structure_tree c (Some path)
    = Ok (take (tree_size c) (drop (sizes (take i cs)) rest)).
Proof.
  induction cs as [|c0 cs IH]; intros path rest i c Hrest Hc; [done|].
  simpl in Hrest.
  apply bind_Ok in Hrest as (es0 & H0 & Hrest).
  apply bind_Ok in Hrest as (rest' & Hrest' & Hrest). simplify_eq.
  destruct (flatten_at c0 _ _ H0) as [Hlen0 _].
  destruct i as [|i]; simpl in Hc.
  - simplify_eq. rewrite H0. f_equal. unfold sizes. simpl.
    by rewrite drop_0, <- Hlen0, take_app_length.
  - simpl. rewrite sizes_cons, <- Hlen0, drop_app_add.
    by apply IH.
Qed.

Lemma take_drop_take {A : Type} (l : list A) (a k s : nat) :
  a + k ≤ s → take k (drop a (take s l)) = take k (drop a l).
Proof.
  intros Hle. rewrite !take_drop_commute, take_take. do 2 f_equal. lia.
Qed.

Lemma flatten_block (root : node) :
  ∀ pos p es m,
    flatten_structure_tree root p = Ok es → subtree root pos = Some m →
    flatten_structure_tree m (Some (default [] p ++ ancestor_ids root pos))
    = Ok (take (tree_size m) (drop (preorder_index root pos) es)).
Proof.
  intros pos. revert root.
  induction pos as [|i pos IH]; intros root p es m Hes Hm; simpl in *.
  - simplify_eq. rewrite app_nil_r, <- flatten_default, Hes. f_equal.
    destruct (flatten_at _ _ _ Hes) as [Hlen _].
    by rewrite drop_0, take_ge by lia.
  - destruct (kids root !! i) as [c|] eqn:Hc; [|done].
    rewrite flatten_unfold in Hes.
    apply bind_Ok in Hes as (rgb & Hrgb & Hes).
    apply bind_Ok in Hes as (rest & Hrest & Hes). simplify_eq.
    pose proof (flatten_forest_block _ _ _ i c Hrest Hc) as Hblock.
    specialize (IH c _ _ m Hblock Hm). simpl in IH.
    rewrite <- app_assoc in IH. simpl in IH. rewrite IH. f_equal.
    pose proof (preorder_index_fits c pos m Hm).
    rewrite take_drop_take by lia. by rewrite drop_drop.
Qed.

(** X7: a node and its descendants fill one block of consecutive records
    of the flattened list, which starts at the node's own record and has
    one record per node of the subtree; the block is what flattening that
    node under the path of its ancestors returns. *)
Theorem subtree_records_form_a_block (root : node) (p : option (list Z))
    (es : list structure) (pos : list nat) (m : node) :
  flatten_structure_tree root p = Ok es → subtree root pos = Some m →
  let block := take (tree_size m) (drop (preorder_index root pos) es) in
  length block = tree_size m ∧
  ∃ ancestors,
    flatten_structure_tree m (Some ancestors) = Ok block ∧
    prefix_paths ancestors (flatten_structure_tree m None) = Ok block.
Proof.
  intros Hes Hm. simpl.
  pose proof (flatten_block root pos p es m Hes Hm) as Hblock.
  split.
  - by destruct (flatten_at _ _ _ Hblock).
  - eexists. split; [exact Hblock|].
    rewrite (flatten_default m None). cbn [default].
    rewrite <- (flatten_prefix_app m _ []). by rewrite app_nil_r.
Qed.

Lemma subtree_records_form_a_block_witness :
  let block := take (tree_size (Node 8 "Basic cell groups and regions" "grey"
                         "#BFDAE3" (Some [Node 567 "Cerebrum" "CH" "B0F0FF" None])))
                 (drop (preorder_index example_tree [0]) example_structures) in
  length block
  = tree_size (Node 8 "Basic cell groups and regions" "grey" "#BFDAE3"
                 (Some [Node 567 "Cerebrum" "CH" "B0F0FF" None])).
Proof.
  exact (proj1 (subtree_records_form_a_block example_tree None
                  example_structures [0] _ eq_refl eq_refl)).
Defined.

Lemma length_path_ids (n : node) :
  ∀ pos m, subtree n pos = Some m → length (path_ids n pos) = S (length pos).
Proof.
  intros pos. revert n. induction pos as [|i pos IH]; intros n m Hm;
    simpl in *; [done|].
  destruct (kids n !! i) as [c|]; [|done]. by rewrite (IH c m Hm).
Qed.

Lemma path_ids_lookup (n : node) :
  ∀ pos k a, subtree n (take k pos) = Some a → k ≤ length pos →
    path_ids n pos !! k = Some (node_id a).
Proof.
  intros pos. revert n. induction pos as [|i pos IH]; intros n k a Ha Hk;
    simpl in *.
  - assert (k = 0) as -> by lia. simpl in Ha. by simplify_eq.
  - destruct k as [|k]; simpl in *; [by simplify_eq|].
    destruct (kids n !! i) as [c|]; [|done].
    apply IH; [done | lia].
Qed.

(** X8: the path of a record lists its node's ancestors from the root
    down: it has one id per level, the id at level [k] being that of the
    ancestor [k] steps below the root, and the last one the node's own. *)
Theorem path_lists_the_ancestors (root : node) (es : list structure)
    (pos : list nat) (m : node) :
  flatten_structure_tree root None = Ok es → subtree root pos = Some m →
  ∃ e, es !! preorder_index root pos = Some e ∧ id e = node_id m ∧
       length (structure_id_path e) = S (length pos) ∧
       (∀ k a, k ≤ length pos → subtree root (take k pos) = Some a →
               structure_id_path e !! k = Some (node_id a)).
Proof.
  intros Hes Hm. destruct (flatten_at _ _ _ Hes) as [_ Hat].
  destruct (Hat pos m Hm) as (rgb & _ & Hlook). simpl in Hlook.
  eexists. split; [exact Hlook|]. simpl. split_and!.
  - done.
  - by apply length_path_ids with m.
  - intros k a Hk Ha. by apply path_ids_lookup.
Qed.

Lemma path_lists_the_ancestors_witness :
  ∃ e, example_structures !! preorder_index example_tree [0; 0] = Some e ∧
       id e = 567%Z ∧ length (structure_id_path e) = 3 ∧
       (∀ k a, k ≤ 2 → subtree example_tree (take k [0; 0]) = Some a →
               structure_id_path e !! k = Some (node_id a)).
Proof.
  exact (path_lists_the_ancestors example_tree example_structures [0; 0]
           (Node 567 "Cerebrum" "CH" "B0F0FF" None) eq_refl eq_refl).
Defined.

Lemma subtree_take (n m : node) (pos : list nat) (k : nat) :
  subtree n pos = Some m → is_Some (subtree n (take k pos)).
Proof.
  intros Hm. rewrite <- (take_drop k pos), subtree_app in Hm.
  destruct (subtree n (take k pos)); [eauto | done].
Qed.

Lemma path_ids_take (n m : node) (pos : list nat) (k : nat) :
  subtree n pos = Some m → k ≤ length pos →
  take (S k) (path_ids n pos) = path_ids n (take k pos).
Proof.
  revert n k. induction pos as [|i pos IH]; intros n k Hm Hk; simpl in *.
  - by assert (k = 0) as -> by lia.
  - destruct k as [|k]; simpl; [done|].
    destruct (kids n !! i) as [c|]; [|done].
    f_equal. apply IH; [done | lia].
Qed.

(** X9: when the flattened records have pairwise distinct ids, the paths
    tell ancestry: the path of one record is a prefix of the path of
    another exactly when the first node is the second node or one of its
    ancestors. *)
Theorem paths_tell_ancestry (root : node) (es : list structure)
    (pos pos' : list nat) (m m' : node) (e e' : structure) :
  flatten_structure_tree root None = Ok es → NoDup (id <$> es) →
  subtree root pos = Some m → subtree root pos' = Some m' →
  es !! preorder_index root pos = Some e →
  es !! preorder_index root pos' = Some e' →
  (pos `prefix_of` pos' ↔
   structure_id_path e `prefix_of` structure_id_path e').
Proof.
  intros Hes Hnodup Hm Hm' He He'.
  destruct (flatten_at _ _ _ Hes) as [_ Hat].
  destruct (Hat pos m Hm) as (rgb & _ & Hlook).
  destruct (Hat pos' m' Hm') as (rgb' & _ & Hlook'). simpl in *.
  assert (e = entry_of m (path_ids root pos) rgb) as -> by congruence.
  assert (e' = entry_of m' (path_ids root pos') rgb') as -> by congruence.
  simpl. split.
  - intros [q ->].
    assert (path_ids root pos
            = take (S (length pos)) (path_ids root (pos ++ q))) as ->.
    { rewrite (path_ids_take root m' (pos ++ q) (length pos) Hm')
        by (rewrite length_app; lia).
      by rewrite take_app_length. }
    apply prefix_take.
  - intros Hpre.
    pose proof (prefix_length _ _ Hpre) as Hlen.
    rewrite (length_path_ids root pos m Hm),
      (length_path_ids root pos' m' Hm') in Hlen.
    set (k := length pos).
    destruct (subtree_take root m' pos' k Hm') as [a Ha].
    assert (path_ids root pos = path_ids root (take k pos')) as Hsame.
    { rewrite <- (path_ids_take root m' pos' k Hm') by lia.
      destruct Hpre as [q ->].
      rewrite take_app_length'; [done|].
      by rewrite (length_path_ids root pos m Hm). }
    destruct (Hat (take k pos') a Ha) as (rgba & _ & Hlooka). simpl in Hlooka.
    assert (node_id m = node_id a) as Hid.
    { pose proof (path_ids_last root m pos Hm) as Hl.
      pose proof (path_ids_last root a _ Ha) as Hl'.
      rewrite Hsame in Hl. congruence. }
    assert (preorder_index root pos = preorder_index root (take k pos')) as Hidx.
    { eapply (NoDup_lookup (id <$> es)); [done | |].
      - rewrite list_lookup_fmap, He. simpl. reflexivity.
      - rewrite list_lookup_fmap, Hlooka. simpl. by rewrite Hid. }
    rewrite (preorder_index_inj root _ _ _ _ Hm Ha Hidx).
    apply prefix_take.
Qed.

Lemma paths_tell_ancestry_witness :
  [0] `prefix_of` [0; 0] ↔
  [997; 8]%Z `prefix_of` [997; 8; 567]%Z.
Proof.
  apply (paths_tell_ancestry example_tree example_structures [0] [0; 0]
           (Node 8 "Basic cell groups and regions" "grey" "#BFDAE3"
              (Some [Node 567 "Cerebrum" "CH" "B0F0FF" None]))
           (Node 567 "Cerebrum" "CH" "B0F0FF" None)
           (Structure 8 "Basic cell groups and regions" "grey" [997; 8]%Z
              [191; 218; 227]%Z)
           (Structure 567 "Cerebrum" "CH" [997; 8; 567]%Z [176; 240; 255]%Z));
    try reflexivity.
  repeat constructor; vm_compute; intros H; inversion H as [|? ? ? H1]; subst;
    repeat (inversion H1 as [|? ? ? H2]; subst; clear H1; rename H2 into H1).
Defined.

End FlattenBlocks.

(** ** More on the presence filter *)

Lemma filter_structures_sublist_mono (structures : list structure)
    (v1 v2 : volume) :
  (∀ x, x ∈ ravel v1 → x ∈ ravel v2) →
  filter_structures_not_present_in_annotation structures v1
    `sublist_of` filter_structures_not_present_in_annotation structures v2.
Proof.
  intros Hsub. rewrite !filter_structures_as_filter.
  induction structures as [|s l IH]; [done|].
  rewrite !filter_cons.
  destruct (decide (id s ∈ ravel v1)) as [H1|H1].
  - rewrite decide_True by auto. by apply sublist_skip.
  - destruct (decide (id s ∈ ravel v2)); [by apply sublist_cons | done].
Qed.

(** X10: the filter looks at the annotation only through the set of its
    voxel values, not its shape or how often a value occurs: volumes with
    the same values keep the same records, a volume with more values
    keeps at least the records of one with fewer, and a volume without
    voxels keeps none. *)
Theorem filter_structures_by_value_set (structures : list structure)
    (v1 v2 : volume) :
  ((∀ x, x ∈ ravel v1 ↔ x ∈ ravel v2) →
   filter_structures_not_present_in_annotation structures v1
   = filter_structures_not_present_in_annotation structures v2) ∧
  ((∀ x, x ∈ ravel v1 → x ∈ ravel v2) →
   filter_structures_not_present_in_annotation structures v1
     `sublist_of` filter_structures_not_present_in_annotation structures v2) ∧
  (ravel v1 = [] →
   filter_structures_not_present_in_annotation structures v1 = []).
Proof.
  split_and!.
  - intros Heq. rewrite !filter_structures_as_filter.
    apply list_filter_iff. intros s. apply Heq.
  - apply filter_structures_sublist_mono.
  - intros Hempty. rewrite filter_structures_as_filter, Hempty.
    induction structures as [|s l IH]; [done|].
    rewrite filter_cons_False; [done|]. apply not_elem_of_nil.
Qed.

Lemma filter_structures_by_value_set_witness :
  filter_structures_not_present_in_annotation example_structures
    [ [ [8; 0; 997; 567] ] ]
  = filter_structures_not_present_in_annotation example_structures
      example_volume.
Proof.
  apply (proj1 (filter_structures_by_value_set example_structures
                  [ [ [8; 0; 997; 567] ] ] example_volume)).
  intros x. rewrite <- !elem_of_unique. reflexivity.
Defined.

(** X11: the filter works record by record: it distributes over the
    concatenation of structure lists, and filtering by two annotations
    one after the other keeps the records present in both, in whichever
    order the two filters run. *)
Theorem filter_structures_composes (s1 s2 : list structure) (v1 v2 : volume) :
  filter_structures_not_present_in_annotation (s1 ++ s2) v1
  = filter_structures_not_present_in_annotation s1 v1
    ++ filter_structures_not_present_in_annotation s2 v1 ∧
  filter_structures_not_present_in_annotation
    (filter_structures_not_present_in_annotation s1 v1) v2
  = filter_structures_not_present_in_annotation
      (filter_structures_not_present_in_annotation s1 v2) v1 ∧
  (∀ r, r ∈ filter_structures_not_present_in_annotation
              (filter_structures_not_present_in_annotation s1 v1) v2
        ↔ r ∈ s1 ∧ id r ∈ ravel v1 ∧ id r ∈ ravel v2).
Proof.
  rewrite !filter_structures_as_filter. split_and!.
  - apply filter_app.
  - rewrite !list_filter_filter. apply list_filter_iff. tauto.
  - intros r. rewrite !list_elem_of_filter. tauto.
Qed.

(** ** The flag and the filter *)

Lemma tag_nodes_lookup (labels : list Z) (tree : Tree) (i : nat) (key : Z)
    (node : TreeNode) :
  nodes tree !! i = Some (key, node) →
  nodes (tag_nodes labels tree) !! i
  = Some (key, set_data node {| is_label := Np.contains key labels |}).
Proof.
  intros Hi. unfold tag_nodes. simpl. rewrite list_lookup_fmap, Hi. simpl.
  by destruct (Np.contains key labels).
Qed.

(** X12: for a volume whose values fit in 32 bits the two presence tests
    of the scripts agree: a node is tagged [is_label] exactly when the
    structures carrying its id survive the presence filter. *)
Theorem is_label_agrees_with_filter (vol : volume) (tree : Tree)
    (structures : list structure) (i : nat) (key : Z) (node : TreeNode) :
  Forall fits_int32 (ravel vol) →
  nodes tree !! i = Some (key, node) →
  ∃ b, nodes (tag_nodes (label_array vol) tree) !! i
         = Some (key, set_data node {| is_label := b |}) ∧
       ∀ s, s ∈ structures → id s = key →
         (b = true ↔
          s ∈ filter_structures_not_present_in_annotation structures vol).
Proof.
  intros Hfit Hi.
  exists (Np.contains key (label_array vol)).
  split; [by apply tag_nodes_lookup|]. intros s Hs <-.
  rewrite contains_elem_of, (label_array_fits vol Hfit), elem_of_unique.
  rewrite filter_structures_as_filter, list_elem_of_filter. tauto.
Qed.

Lemma is_label_agrees_with_filter_witness :
  ∃ b, nodes (tag_nodes (label_array example_volume) example_nodes) !! 2%nat
         = Some (73, set_data {| identifier := 73; tag := "VS"; data := None |}
                       {| is_label := b |}) ∧
       ∀ s, s ∈ example_structures → id s = 73 →
         (b = true ↔
          s ∈ filter_structures_not_present_in_annotation example_structures
                example_volume).
Proof.
  apply (is_label_agrees_with_filter example_volume example_nodes
           example_structures 2 73 _); [|reflexivity].
  repeat constructor; vm_compute; congruence.
Defined.

(** ** More on the mesh driver *)

Lemma string_length_app (s t : string) :
  String.length (s +:+ t) = (String.length s + String.length t)%nat.
Proof. induction s as [|a s IH]; simpl; [done | by rewrite IH]. Qed.

Lemma string_app_inj_r (s1 s2 t : string) : s1 +:+ t = s2 +:+ t → s1 = s2.
Proof.
  revert s2. induction s1 as [|a s1 IH]; intros [|b s2] Heq; simpl in *.
  - done.
  - apply (f_equal String.length) in Heq. simpl in Heq.
    rewrite !string_length_app in Heq. simpl in Heq. lia.
  - apply (f_equal String.length) in Heq. simpl in Heq.
    rewrite !string_length_app in Heq. simpl in Heq. lia.
  - injection Heq as -> Heq. f_equal. by apply IH.
Qed.

Lemma mesh_path_of_inj (download_path : string) (k1 k2 : Z) :
  mesh_path_of download_path k1 = mesh_path_of download_path k2 → k1 = k2.
Proof.
  unfold mesh_path_of, Path.join, obj_name, Py.str_of_int. intros Heq.
  do 2 apply (inj (String.app _)) in Heq.
  apply string_app_inj_r in Heq. by apply (inj pretty) in Heq.
Qed.

Section DriverMore.

Variable get_structures_tree : list structure → result Tree.
Variable create_region_mesh : mesh_args → filesystem → result filesystem.
Variable this : script.

(** X13: no two regions share a mesh file: in the dictionary the driver
    returns, different ids are mapped to different paths. *)
Theorem meshes_dict_paths_distinct (download_path : string) (vol : volume)
    (structures : list structure) (fs fs' : filesystem) (tree' : Tree)
    (meshes_dict : gmap Z string) (k1 k2 : Z) (p : string) :
  retrieve_or_construct_meshes get_structures_tree create_region_mesh this
    download_path vol structures fs = Ok (fs', tree', meshes_dict) →
  meshes_dict !! k1 = Some p → meshes_dict !! k2 = Some p → k1 = k2.
Proof.
  intros Hrun H1 H2.
  apply retrieve_or_construct_meshes_Ok in Hrun
    as (tree & _ & _ & _ & _ & ->).
  rewrite keep_mesh_fold in H1, H2. simpl in H1, H2.
  rewrite lookup_empty in H1, H2.
  case_decide; [|done]. case_decide; [|done].
  apply (mesh_path_of_inj download_path). unfold mesh_path_of. congruence.
Qed.



End DriverMore.

Section CatalogMore.

Variables (dir : string) (fs : filesystem).

Lemma keep_mesh_fst (acc : list structure * gmap Z string) (s : structure) :
  (keep_mesh dir fs acc s).1 =
    if usable_mesh dir fs (id s) then acc.1 ++ [s] else acc.1.
Proof.
  destruct acc as [l d]. unfold keep_mesh, usable_mesh.
  destruct (fs !! _) as [f|]; [|done]. by destruct (_ <? _).
Qed.

Lemma keep_mesh_fold_fst (structures : list structure) :
  ∀ acc : list structure * gmap Z string,
    (foldl (keep_mesh dir fs) acc structures).1
    = acc.1 ++ filter (λ s, usable_mesh dir fs (id s) = true) structures.
Proof.
  induction structures as [|s l IH]; intros acc; simpl.
  - by rewrite app_nil_r.
  - rewrite IH, keep_mesh_fst, filter_cons.
    destruct (usable_mesh dir fs (id s)) eqn:Hu.
    + rewrite decide_True by done. by rewrite <- app_assoc.
    + rewrite decide_False by done. done.
Qed.

Lemma size_list_to_set_le (l : list Z) :
  (size (list_to_set l : gset Z) ≤ length l)%nat.
Proof.
  induction l as [|x l IH]; [by rewrite list_to_set_nil, size_empty|].
  rewrite list_to_set_cons, size_union_alt, size_singleton. simpl.
  assert (size (list_to_set l ∖ {[x]} : gset Z) ≤ size (list_to_set l : gset Z))%nat
    by (apply subseteq_size; intros y Hy; apply elem_of_difference in Hy; tauto).
  lia.
Qed.

(** X15: the dictionary loop keeps, in their order, the structures whose
    mesh file passes the test of the loop; the keys of the dictionary are
    the ids of the kept structures, so the dictionary has at most as many
    entries as structures are kept, and it is the same for any structure
    list with the same ids, in whatever order and however often. *)
Theorem dictionary_loop_kept (structures : list structure) :
  let result := foldl (keep_mesh dir fs) ([], ∅) structures in
  result.1 = filter (λ s, usable_mesh dir fs (id s) = true) structures ∧
  dom result.2 = list_to_set (id <$> result.1) ∧
  (size result.2 ≤ length result.1)%nat ∧
  (∀ structures',
     (∀ k, k ∈ id <$> structures ↔ k ∈ id <$> structures') →
     (foldl (keep_mesh dir fs) ([], ∅) structures').2 = result.2).
Proof.
  simpl.
  assert ((foldl (keep_mesh dir fs) ([], ∅) structures).1
          = filter (λ s, usable_mesh dir fs (id s) = true) structures) as Hkept
    by (by rewrite keep_mesh_fold_fst).
  assert (dom (foldl (keep_mesh dir fs) ([], ∅) structures).2
          =@{gset Z} list_to_set
              (id <$> (foldl (keep_mesh dir fs) ([], ∅) structures).1)) as Hdom.
  { rewrite Hkept. apply set_eq. intros k.
    rewrite elem_of_list_to_set, list_elem_of_fmap. split.
    - intros [p Hp]%elem_of_dom. rewrite keep_mesh_fold in Hp.
      simpl in Hp. rewrite lookup_empty in Hp.
      case_decide as Hk; [|done].
      destruct Hk as [Hu (s & -> & Hs)%list_elem_of_fmap].
      exists s. split; [done|]. by apply list_elem_of_filter.
    - intros (s & -> & [Hu Hs]%list_elem_of_filter).
      apply elem_of_dom. rewrite keep_mesh_fold.
      rewrite decide_True; [eauto|].
      split; [done|]. apply list_elem_of_fmap. eauto. }
  split_and!; [done | done | |].
  - rewrite <- size_dom, Hdom.
    etrans; [apply size_list_to_set_le|]. by rewrite length_fmap.
  - intros structures' Hids. apply map_eq. intros k.
    rewrite !keep_mesh_fold. simpl.
    case_decide as H1; case_decide as H2; try done.
    + destruct H2. split; [tauto|]. apply Hids. tauto.
    + destruct H1. split; [tauto|]. apply Hids. tauto.
Qed.

End CatalogMore.

Lemma meshes_dict_paths_distinct_witness :
  ∃ fs' tree' meshes_dict,
    retrieve_or_construct_meshes example_get_structures_tree
      (create_region_mesh_spec example_compute)
      allen_bbp_ccfv3a_entire_mouse_brain "atlas" example_volume
      example_structures ∅ = Ok (fs', tree', meshes_dict) ∧
    meshes_dict !! 8 = Some "atlas/meshes/8.obj" ∧ (8 : Z) = 8.
Proof.
  destruct (retrieve_or_construct_meshes example_get_structures_tree
              (create_region_mesh_spec example_compute)
              allen_bbp_ccfv3a_entire_mouse_brain "atlas" example_volume
              example_structures ∅) as [[[fs' tree'] d]|e] eqn:Hrun;
    [|vm_compute in Hrun; discriminate Hrun].
  exists fs', tree', d. split; [reflexivity|].
  assert (d !! 8 = Some "atlas/meshes/8.obj") as H8.
  { pose proof Hrun as Hrun'. vm_compute in Hrun'.
    injection Hrun' as _ _ <-. reflexivity. }
  split; [exact H8|].
  exact (meshes_dict_paths_distinct _ _ _ _ _ _ _ _ _ _ 8 8
           "atlas/meshes/8.obj" Hrun H8 H8).
Defined.


(** ** The tagging loop, once more *)


(** ** Reading the volumes *)

Lemma float64_of_int_exact (z : Z) : Z.abs z ≤ 2 ^ 53 → float64_of_int z = z.
Proof.
  intros Hz. unfold float64_of_int.
  by rewrite (proj2 (Z.leb_le _ _) Hz).
Qed.

Example float64_of_int_rounds :
  float64_of_int (2 ^ 53 + 1) = 2 ^ 53 ∧
  float64_of_int (2 ^ 53 + 3) = 2 ^ 53 + 4 ∧
  float64_of_int (- (2 ^ 64 - 1)) = - 2 ^ 64.
Proof. vm_compute. done. Qed.

Lemma elem_of_ravel (v : volume) (x : Z) :
  x ∈ ravel v ↔ ∃ plane row, plane ∈ v ∧ row ∈ plane ∧ x ∈ row.
Proof.
  unfold ravel. rewrite list_elem_of_In, in_concat. split.
  - intros (row & Hrow & Hx). apply in_concat in Hrow as (plane & Hp & Hr).
    exists plane, row. by rewrite !list_elem_of_In.
  - intros (plane & row & Hp & Hr & Hx). exists row.
    split; [|by apply list_elem_of_In].
    apply in_concat. exists plane. by rewrite <- !list_elem_of_In.
Qed.

Section RetrieveProperties.

Variable T : Type.
Variable nrrd_read_reference : string → result (ndarray T).
Variable nrrd_read_annotation : string → result (ndarray Z).
Variable download_path : string.

Lemma broadcastable_spec (src tgt : nat) :
  Nd.broadcastable src tgt = true ↔ src = tgt ∨ src = 1%nat.
Proof.
  unfold Nd.broadcastable.
  rewrite orb_true_iff, !Nat.eqb_eq. done.
Qed.

Lemma mirror_unfold (reference : ndarray T) (annotation : ndarray Z)
    (n0 n1 n2 : nat) :
  nrrd_read_reference (Path.join download_path "arav3a_bbp_nisslCOR_10.nrrd")
    = Ok reference →
  nrrd_read_annotation (Path.join download_path "annotv3a_bbp_10.nrrd")
    = Ok annotation →
  shape reference = (n0, n1, n2) →
  retrieve_reference_and_annotation T nrrd_read_reference
    nrrd_read_annotation download_path 10
  = (right ← Nd.broadcast_to (n0, n1, n2 - 570)%nat
               (Nd.astype_float64 annotation);
     left ← Nd.broadcast_to (n0, n1, 570 `min` n2)%nat
              (Nd.astype_float64 (Nd.flip_last annotation));
     Ok (reference,
         NdArray (n0, n1, n2)
           (zip_with (zip_with (λ row vrow, vrow ++ drop 570 row))
              (zip_with (zip_with (λ row vrow, take 570 row ++ vrow))
                 (replicate n0 (replicate n1 (replicate n2 0))) right)
              left))).
Proof.
  intros Href Hann Hshape. unfold retrieve_reference_and_annotation.
  change (Py.str_of_int 10) with "10".
  change ("arav3a_bbp_nisslCOR_" +:+ "10" +:+ ".nrrd")
    with "arav3a_bbp_nisslCOR_10.nrrd".
  change ("annotv3a_bbp_" +:+ "10" +:+ ".nrrd") with "annotv3a_bbp_10.nrrd".
  rewrite Href, Hann. cbn [mbind result_bind]. rewrite Hshape.
  change (10 =? 10) with true. cbv iota.
  unfold Nd.set_from, Nd.zeros. cbn [shape items].
  destruct (Nd.broadcast_to (n0, n1, (n2 - 570)%nat) _) as [right|e];
    cbn [mbind result_bind]; [|done].
  unfold Nd.set_upto. cbn [shape items].
  by destruct (Nd.broadcast_to (n0, n1, (570 `min` n2)%nat) _) as [left|e].
Qed.

(** X17: at resolution 10 the depth 570 of the half volume is built in.
    Once both files are read, the mirroring returns exactly when the
    annotation fits the reference along the first two axes (equal
    lengths, or length 1) and its depth is 1, or 570 for a reference of
    depth 1140, or 0 for a reference of depth 0; in every other case it
    raises [ValueError]. *)
Theorem mirroring_needs_depth_570 (reference : ndarray T)
    (annotation : ndarray Z) (n0 n1 n2 a b c : nat) :
  nrrd_read_reference (Path.join download_path "arav3a_bbp_nisslCOR_10.nrrd")
    = Ok reference →
  nrrd_read_annotation (Path.join download_path "annotv3a_bbp_10.nrrd")
    = Ok annotation →
  shape reference = (n0, n1, n2) → shape annotation = (a, b, c) →
  let run := retrieve_reference_and_annotation T nrrd_read_reference
               nrrd_read_annotation download_path 10 in
  (returns run = true ↔
   (a = n0 ∨ a = 1%nat) ∧ (b = n1 ∨ b = 1%nat) ∧
   (c = 1%nat ∨ (c = 570%nat ∧ n2 = 1140%nat) ∨ (c = 0%nat ∧ n2 = 0%nat))) ∧
  (returns run = false → run = Raise ValueError).
Proof.
  intros Href Hann Hshape Hshape'. simpl.
  rewrite (mirror_unfold reference annotation n0 n1 n2 Href Hann Hshape).
  unfold Nd.broadcast_to. cbn [Nd.astype_float64 Nd.flip_last shape items].
  rewrite Hshape'.
  destruct (Nd.broadcastable a n0) eqn:Ha;
    destruct (Nd.broadcastable b n1) eqn:Hb;
    destruct (Nd.broadcastable c (n2 - 570)%nat) eqn:Hc;
    destruct (Nd.broadcastable c (570 `min` n2)%nat) eqn:Hc';
    cbn [andb mbind result_bind returns];
    (split; [|done]);
    rewrite <- ?not_true_iff_false in *;
    rewrite !broadcastable_spec in *;
    split; try done; try lia; intros; exfalso; lia.
Qed.

Lemma fmap_id_on {A : Type} (f : A → A) (l : list A) :
  (∀ x, x ∈ l → f x = x) → f <$> l = l.
Proof.
  induction l as [|x l IH]; intros Hf; simpl; [done|].
  rewrite Hf by left. f_equal. apply IH. intros y Hy. apply Hf. by right.
Qed.

Lemma fmap_ext_on {A B : Type} (f g : A → B) (l : list A) :
  (∀ x, x ∈ l → f x = g x) → f <$> l = g <$> l.
Proof.
  induction l as [|x l IH]; intros Hf; simpl; [done|].
  rewrite Hf by left. f_equal. apply IH. intros y Hy. apply Hf. by right.
Qed.

Lemma zip_with_fmap_same {A B C D : Type} (f : B → C → D) (g : A → B)
    (h : A → C) (l : list A) :
  zip_with f (g <$> l) (h <$> l) = (λ x, f (g x) (h x)) <$> l.
Proof. by induction l as [|x l IH]; f_equal/=. Qed.

Lemma stretch_same {A : Type} (n : nat) (l : list A) : Nd.stretch n n l = l.
Proof. unfold Nd.stretch. by rewrite Nat.eqb_refl. Qed.

Lemma well_shaped_lengths {A : Type} (a : ndarray A) (n0 n1 n2 : nat) :
  shape a = (n0, n1, n2) → well_shaped a = true →
  length (items a) = n0 ∧
  ∀ plane, plane ∈ items a →
    length plane = n1 ∧ ∀ row, row ∈ plane → length row = n2.
Proof.
  unfold well_shaped. intros -> [Hlen Hall]%andb_true_iff.
  split; [by apply Nat.eqb_eq|].
  rewrite forallb_forall in Hall. intros plane Hplane%list_elem_of_In.
  apply Hall in Hplane as [Hp Hrows]%andb_true_iff.
  split; [by apply Nat.eqb_eq|].
  rewrite forallb_forall in Hrows. intros row Hrow%list_elem_of_In.
  by apply Nat.eqb_eq, Hrows.
Qed.

Lemma astype_float64_exact (a : ndarray Z) :
  (∀ x, x ∈ ravel (items a) → Z.abs x ≤ 2 ^ 53) →
  items (Nd.astype_float64 a) = items a.
Proof.
  intros Hex. unfold Nd.astype_float64. cbn [items].
  apply fmap_id_on. intros plane Hplane.
  apply fmap_id_on. intros row Hrow.
  apply fmap_id_on. intros x Hx.
  apply float64_of_int_exact, Hex, elem_of_ravel. eauto.
Qed.

Lemma ravel_flip_last (a : ndarray Z) (x : Z) :
  x ∈ ravel (items (Nd.flip_last a)) ↔ x ∈ ravel (items a).
Proof.
  unfold Nd.flip_last. cbn [items]. rewrite !elem_of_ravel. split.
  - intros (plane & row & Hp & Hr & Hx).
    apply list_elem_of_fmap in Hp as (plane0 & -> & Hp).
    apply list_elem_of_fmap in Hr as (row0 & -> & Hr).
    rewrite elem_of_reverse in Hx. eauto.
  - intros (plane & row & Hp & Hr & Hx).
    exists ((λ row : list Z, reverse row) <$> plane), (reverse row).
    split_and!.
    + apply list_elem_of_fmap. eauto.
    + apply list_elem_of_fmap. eauto.
    + by rewrite elem_of_reverse.
Qed.

(** The two slice assignments, carried out on arrays of the shapes the
    script is written for. *)
Lemma mirror_computes (reference : ndarray T)
    (annotation : ndarray Z) (n0 n1 : nat) :
  nrrd_read_reference (Path.join download_path "arav3a_bbp_nisslCOR_10.nrrd")
    = Ok reference →
  nrrd_read_annotation (Path.join download_path "annotv3a_bbp_10.nrrd")
    = Ok annotation →
  shape reference = (n0, n1, 1140%nat) →
  shape annotation = (n0, n1, 570%nat) →
  well_shaped annotation = true →
  (∀ x, x ∈ ravel (items annotation) → Z.abs x ≤ 2 ^ 53) →
  retrieve_reference_and_annotation T nrrd_read_reference
    nrrd_read_annotation download_path 10
  = Ok (reference,
        NdArray (n0, n1, 1140%nat)
          ((λ plane : list (list Z),
              (λ row : list Z, reverse row ++ row) <$> plane)
             <$> items annotation)).
Proof.
  intros Href Hann Hshape Hshape' Hwf Hex.
  destruct (well_shaped_lengths annotation n0 n1 570 Hshape' Hwf)
    as [Hlen Hplanes].
  rewrite (mirror_unfold reference annotation n0 n1 1140 Href Hann Hshape).
  change (1140 - 570)%nat with 570%nat.
  change (570 `min` 1140)%nat with 570%nat.
  unfold Nd.broadcast_to.
  change (shape (Nd.astype_float64 annotation)) with (shape annotation).
  change (shape (Nd.astype_float64 (Nd.flip_last annotation)))
    with (shape annotation).
  rewrite Hshape'.
  unfold Nd.broadcastable. rewrite !Nat.eqb_refl.
  cbn [orb andb mbind result_bind].
  rewrite !stretch_same.
  rewrite (astype_float64_exact annotation Hex).
  rewrite (astype_float64_exact (Nd.flip_last annotation))
    by (intros x Hx; apply Hex, (proj1 (ravel_flip_last annotation x)), Hx).
  cbn [Nd.flip_last items].
  assert (∀ l : list (list (list Z)),
            (λ plane : list (list Z),
               Nd.stretch n1 n1
                 ((λ row : list Z, Nd.stretch 570 570 row) <$> plane)) <$> l
            = l) as Hid.
  { intros l. apply fmap_id_on. intros plane _. rewrite stretch_same.
    apply fmap_id_on. intros row _. apply stretch_same. }
  rewrite !Hid. do 3 f_equal.
  rewrite zip_with_replicate_l by lia.
  rewrite (fmap_ext_on _
             (λ plane : list (list Z),
                (λ vrow : list Z, replicate 570 0 ++ vrow) <$> plane)).
  2:{ intros plane Hplane. destruct (Hplanes plane Hplane) as [Hp _].
      rewrite zip_with_replicate_l by lia.
      apply fmap_ext_on. intros row _.
      by rewrite take_replicate. }
  rewrite zip_with_fmap_same.
  apply fmap_ext_on. intros plane _.
  rewrite zip_with_fmap_same.
  apply fmap_ext_on. intros row _.
  by rewrite drop_app_length' by (by rewrite length_replicate).
Qed.

(** X18: for the volumes the script is written for, an annotation of
    shape (n0, n1, 570) with values that float64 holds exactly and a
    reference of shape (n0, n1, 1140), the call at resolution 10 returns
    the reference as read and the annotation mirrored along the last
    axis: every row is the row of the file preceded by its reversal. *)
Theorem retrieve_mirrors_the_annotation (reference : ndarray T)
    (annotation : ndarray Z) (n0 n1 : nat) :
  nrrd_read_reference (Path.join download_path "arav3a_bbp_nisslCOR_10.nrrd")
    = Ok reference →
  nrrd_read_annotation (Path.join download_path "annotv3a_bbp_10.nrrd")
    = Ok annotation →
  shape reference = (n0, n1, 1140%nat) →
  shape annotation = (n0, n1, 570%nat) →
  well_shaped annotation = true →
  (∀ x, x ∈ ravel (items annotation) → Z.abs x ≤ 2 ^ 53) →
  retrieve_reference_and_annotation T nrrd_read_reference
    nrrd_read_annotation download_path 10
  = Ok (reference,
        NdArray (n0, n1, 1140%nat)
          ((λ plane : list (list Z),
              (λ row : list Z, reverse row ++ row) <$> plane)
             <$> items annotation)).
Proof.
  intros Href Hann Hshape Hshape' Hwf Hex.
  rewrite (mirror_computes reference annotation n0 n1) by assumption.
  reflexivity.
Qed.

(** X19: in that case the mirrored annotation has the shape of the
    reference, is symmetric (every row reads the same in both
    directions) and holds the same values as the file, so that the
    presence filter keeps the same structures on the mirrored volume as
    on the half volume. *)
Theorem mirrored_annotation_keeps_labels (reference : ndarray T)
    (annotation : ndarray Z) (n0 n1 : nat) :
  nrrd_read_reference (Path.join download_path "arav3a_bbp_nisslCOR_10.nrrd")
    = Ok reference →
  nrrd_read_annotation (Path.join download_path "annotv3a_bbp_10.nrrd")
    = Ok annotation →
  shape reference = (n0, n1, 1140%nat) →
  shape annotation = (n0, n1, 570%nat) →
  well_shaped annotation = true →
  (∀ x, x ∈ ravel (items annotation) → Z.abs x ≤ 2 ^ 53) →
  ∃ mirrored,
    retrieve_reference_and_annotation T nrrd_read_reference
      nrrd_read_annotation download_path 10 = Ok (reference, mirrored) ∧
    shape mirrored = shape reference ∧
    well_shaped mirrored = true ∧
    (∀ plane row, plane ∈ items mirrored → row ∈ plane → reverse row = row) ∧
    (∀ x, x ∈ ravel (items mirrored) ↔ x ∈ ravel (items annotation)) ∧
    (∀ structures,
       filter_structures_not_present_in_annotation structures (items mirrored)
       = filter_structures_not_present_in_annotation structures
           (items annotation)).
Proof.
  intros Href Hann Hshape Hshape' Hwf Hex.
  destruct (well_shaped_lengths annotation n0 n1 570 Hshape' Hwf)
    as [Hlen Hplanes].
  eexists. split.
  { by apply (mirror_computes reference annotation n0 n1). }
  cbn [shape items].
  assert (∀ x, x ∈ ravel ((λ plane : list (list Z),
                             (λ row : list Z, reverse row ++ row) <$> plane)
                            <$> items annotation)
               ↔ x ∈ ravel (items annotation)) as Hsame.
  { intros x. rewrite !elem_of_ravel. split.
    - intros (plane & row & Hp & Hr & Hx).
      apply list_elem_of_fmap in Hp as (plane0 & -> & Hp).
      apply list_elem_of_fmap in Hr as (row0 & -> & Hr).
      rewrite elem_of_app, elem_of_reverse in Hx.
      exists plane0, row0. tauto.
    - intros (plane & row & Hp & Hr & Hx).
      exists ((λ row : list Z, reverse row ++ row) <$> plane),
        (reverse row ++ row).
      split_and!.
      + apply list_elem_of_fmap. eauto.
      + apply list_elem_of_fmap. eauto.
      + rewrite elem_of_app. by right. }
  split_and!.
  - done.
  - unfold well_shaped. cbn [shape items].
    rewrite length_fmap, Hlen, Nat.eqb_refl. simpl.
    apply forallb_forall.
    intros plane (plane0 & -> & Hp)%list_elem_of_In%list_elem_of_fmap.
    destruct (Hplanes plane0 Hp) as [Hn1 Hrows].
    rewrite length_fmap, Hn1, Nat.eqb_refl. simpl.
    apply forallb_forall.
    intros row (row0 & -> & Hr)%list_elem_of_In%list_elem_of_fmap.
    rewrite length_app, length_reverse, (Hrows row0 Hr). done.
  - intros plane row (plane0 & -> & Hp)%list_elem_of_fmap
      (row0 & -> & Hr)%list_elem_of_fmap.
    by rewrite reverse_app, reverse_involutive.
  - exact Hsame.
  - intros structures. rewrite !filter_structures_as_filter.
    apply list_filter_iff. intros s. apply Hsame.
Qed.

End RetrieveProperties.

Lemma values_exact_check (v : volume) :
  forallb (λ x, Z.abs x <=? 2 ^ 53) (ravel v) = true →
  ∀ x, x ∈ ravel v → Z.abs x ≤ 2 ^ 53.
Proof.
  rewrite forallb_forall. intros Hall x Hx%list_elem_of_In.
  by apply Z.leb_le, Hall.
Qed.

Lemma mirroring_needs_depth_570_witness :
  returns (retrieve_reference_and_annotation unit (λ _, Ok example_reference)
             (λ _, Ok example_half) "atlas" 10) = true ↔
  (1 = 1 ∨ 1 = 1)%nat ∧ (2 = 2 ∨ 2 = 1)%nat ∧
  (570 = 1 ∨ (570 = 570 ∧ 1140 = 1140) ∨ (570 = 0 ∧ 1140 = 0))%nat.
Proof.
  exact (proj1 (mirroring_needs_depth_570 unit (λ _, Ok example_reference)
                  (λ _, Ok example_half) "atlas" example_reference
                  example_half 1 2 1140 1 2 570
                  eq_refl eq_refl eq_refl eq_refl)).
Defined.

Lemma retrieve_mirrors_the_annotation_witness :
  retrieve_reference_and_annotation unit (λ _, Ok example_reference)
    (λ _, Ok example_half) "atlas" 10
  = Ok (example_reference,
        NdArray (1, 2, 1140)%nat
          ((λ plane : list (list Z),
              (λ row : list Z, reverse row ++ row) <$> plane)
             <$> items example_half)).
Proof.
  apply (retrieve_mirrors_the_annotation unit (λ _, Ok example_reference)
           (λ _, Ok example_half) "atlas" example_reference example_half 1 2);
    try reflexivity.
  apply values_exact_check. vm_compute. reflexivity.
Defined.

Lemma mirrored_annotation_keeps_labels_witness :
  ∃ mirrored,
    retrieve_reference_and_annotation unit (λ _, Ok example_reference)
      (λ _, Ok example_half) "atlas" 10 = Ok (example_reference, mirrored) ∧
    shape mirrored = (1, 2, 1140)%nat.
Proof.
  assert (∀ x, x ∈ ravel (items example_half) → Z.abs x ≤ 2 ^ 53) as Hex
    by (apply values_exact_check; vm_compute; reflexivity).
  destruct (mirrored_annotation_keeps_labels unit (λ _, Ok example_reference)
              (λ _, Ok example_half) "atlas" example_reference example_half
              1 2 eq_refl eq_refl eq_refl eq_refl eq_refl Hex)
    as (mirrored & Hrun & Hshape & _).
  exists mirrored. split; [exact Hrun | exact Hshape].
Defined.

(** ** Runs of the further properties on the examples *)

Lemma flatten_returns_iff_colours_witness :
  returns (flatten_structure_tree example_tree None)
  = colours_convert example_tree.
Proof. exact (proj1 (flatten_returns_iff_colours example_tree None)). Defined.

Lemma dictionary_loop_kept_witness :
  (foldl (keep_mesh "atlas/meshes" example_files) ([], ∅) example_structures).1
  = filter (λ s, usable_mesh "atlas/meshes" example_files (id s) = true)
      example_structures.
Proof.
  exact (proj1 (dictionary_loop_kept "atlas/meshes" example_files
                  example_structures)).
Defined.

